(** * keywordToolScraper: session store, login flow, extraction and
      multi-account orchestration

    Shallow embedding of [src/scraper/keywordToolScraper.js].  The browser
    driven through Playwright is an external party: what each call answers is
    taken from a [Scenario] (one field per call site) and every call made is
    appended to a history of events.  The file system behind [fs] is a finite
    map from paths to file contents, with the paths on which reads or writes
    fail written out.  The array of configured accounts lives on a heap of
    arrays, so that a sort in place and a sort of a copy differ.  Console
    output and the randomized delays are left out. *)

From Stdlib Require Import ZArith Ascii String List Bool Lia.
From stdpp Require Import base option list gmap strings.

Set Warnings "-register-all".
Local Open Scope string_scope.
Local Open Scope Z_scope.

(** ** JavaScript strings (restricted to one-byte characters) *)

Module Js.

(** [String.prototype.includes]. *)
Fixpoint includes (s sub : string) : bool :=
  String.prefix sub s ||
  match s with
  | EmptyString => false
  | String _ s' => includes s' sub
  end.

(** [String.prototype.startsWith]. *)
Definition startsWith (s p : string) : bool := String.prefix p s.

(** White space of [trim], of [parseInt] and of the regular expression
    class [\s], among the characters below 256: tab, line feed, vertical
    tab, form feed, carriage return, space and no-break space. *)
Definition is_white (c : ascii) : bool :=
  let n := nat_of_ascii c in
  (Nat.eqb n 32 || Nat.eqb n 9 || Nat.eqb n 10 || Nat.eqb n 11
   || Nat.eqb n 12 || Nat.eqb n 13 || Nat.eqb n 160)%nat.

Fixpoint trimStart (s : string) : string :=
  match s with
  | String c s' => if is_white c then trimStart s' else s
  | EmptyString => EmptyString
  end.

(** Drops the white space at the end: a character is kept when something
    that is kept follows it or when it is not white space. *)
Fixpoint trimEnd (s : string) : string :=
  match s with
  | EmptyString => EmptyString
  | String c s' =>
      match trimEnd s' with
      | EmptyString => if is_white c then EmptyString else String c EmptyString
      | t => String c t
      end
  end.

(** [String.prototype.trim]. *)
Definition trim (s : string) : string := trimEnd (trimStart s).

(** [s.replace(/re/g, '')] for a regular expression that matches exactly
    the single characters accepted by [p]. *)
Fixpoint remove_chars (p : ascii -> bool) (s : string) : string :=
  match s with
  | EmptyString => EmptyString
  | String c s' => if p c then remove_chars p s' else String c (remove_chars p s')
  end.

(** [s.replace(/re/g, r)] for a single-character class and a one-character
    replacement. *)
Fixpoint replace_chars (p : ascii -> bool) (r : ascii) (s : string) : string :=
  match s with
  | EmptyString => EmptyString
  | String c s' => String (if p c then r else c) (replace_chars p r s')
  end.

Definition is_upper (c : ascii) : bool :=
  let n := nat_of_ascii c in (Nat.leb 65 n && Nat.leb n 90)%nat.
Definition is_lower (c : ascii) : bool :=
  let n := nat_of_ascii c in (Nat.leb 97 n && Nat.leb n 122)%nat.
Definition is_digit (c : ascii) : bool :=
  let n := nat_of_ascii c in (Nat.leb 48 n && Nat.leb n 57)%nat.
Definition is_alnum (c : ascii) : bool := is_lower c || is_upper c || is_digit c.

(** The capital letters beyond Z among the characters below 256: 192 to
    222 without the multiplication sign 215. *)
Definition is_upper_latin1 (c : ascii) : bool :=
  let n := nat_of_ascii c in (Nat.leb 192 n && Nat.leb n 222 && negb (Nat.eqb n 215))%nat.

Definition lower_char (c : ascii) : ascii :=
  if is_upper c || is_upper_latin1 c then ascii_of_nat (nat_of_ascii c + 32) else c.

(** [String.prototype.toLowerCase]. *)
Fixpoint toLowerCase (s : string) : string :=
  match s with
  | EmptyString => EmptyString
  | String c s' => String (lower_char c) (toLowerCase s')
  end.

Definition digit_value (c : ascii) : Z := Z.of_nat (nat_of_ascii c) - 48.

(** The longest run of decimal digits at the front of [s], read with the
    accumulator [acc]; [seen] tells whether a digit was read. *)
Fixpoint read_digits (s : string) (acc : Z) (seen : bool) : option Z :=
  match s with
  | String c s' =>
      if is_digit c then read_digits s' (10 * acc + digit_value c) true
      else if seen then Some acc else None
  | EmptyString => if seen then Some acc else None
  end.

(** [parseInt(s, 10)]; [None] is NaN.  Leading white space is skipped, one
    sign is accepted, and reading stops at the first character that is not
    a digit. *)
Definition parseInt (s : string) : option Z :=
  match trimStart s with
  | String "-" s' => Z.opp <$> read_digits s' 0 false
  | String "+" s' => read_digits s' 0 false
  | t => read_digits t 0 false
  end.

(** What [obj[key]] finds on an object literal whose own properties are
    strings: an own property, or a member inherited from
    [Object.prototype]; [None] is [undefined]. *)
Inductive property :=
| Own (value : string)
| Inherited (name : string).

Definition Object_prototype : list string :=
  ["constructor"; "hasOwnProperty"; "isPrototypeOf"; "propertyIsEnumerable";
   "toLocaleString"; "toString"; "valueOf"; "__proto__";
   "__defineGetter__"; "__defineSetter__"; "__lookupGetter__"; "__lookupSetter__"].

Definition member (own : string -> option string) (key : string) : option property :=
  match own key with
  | Some v => Some (Own v)
  | None => if existsb (String.eqb key) Object_prototype then Some (Inherited key) else None
  end.

(** The text of a template literal or a log line for such a value. *)
Definition property_text (v : property) : string :=
  match v with
  | Own s => s
  | Inherited name => "function " ++ name
  end.

(** [Array.prototype.join]. *)
Fixpoint join (sep : string) (l : list string) : string :=
  match l with
  | [] => ""
  | [x] => x
  | x :: l' => x ++ sep ++ join sep l'
  end.

(** [Array.prototype.sort] with a comparison function: the sort is stable,
    here by insertion from the right. *)
Fixpoint sort_insert {A} (cmp : A -> A -> Z) (x : A) (l : list A) : list A :=
  match l with
  | [] => [x]
  | y :: l' => if cmp x y <=? 0 then x :: y :: l' else y :: sort_insert cmp x l'
  end.

Fixpoint sort {A} (cmp : A -> A -> Z) (l : list A) : list A :=
  match l with
  | [] => []
  | x :: l' => sort_insert cmp x (sort cmp l')
  end.

End Js.

(** ** JSON values *)

Inductive json :=
| JNull
| JBool (b : bool)
| JNum (n : Z)
| JStr (s : string)
| JArr (items : list json)
| JObj (fields : list (string * json)).

(** Property access [v.key]; [None] is [undefined].  Only objects of the
    JSON data model carry own properties. *)
Fixpoint assoc_get (key : string) (fields : list (string * json)) : option json :=
  match fields with
  | [] => None
  | (k, v) :: rest => if String.eqb k key then Some v else assoc_get key rest
  end.

Definition json_get (key : string) (v : json) : option json :=
  match v with
  | JObj fields => assoc_get key fields
  | _ => None
  end.

(** ToBoolean. *)
Definition json_truthy (v : json) : bool :=
  match v with
  | JNull => false
  | JBool b => b
  | JNum n => negb (n =? 0)
  | JStr s => negb (String.eqb s "")
  | JArr _ | JObj _ => true
  end.

Definition truthy (o : option json) : bool :=
  match o with
  | Some v => json_truthy v
  | None => false
  end.

(** A cookie entry is an opaque JSON value. *)
Definition cookie := json.

(** The object literal [{ cookies, userAgent }] of [saveCookies]. *)
Definition session_json (cookies : list cookie) (userAgent : string) : json :=
  JObj [("cookies", JArr cookies); ("userAgent", JStr userAgent)].

(** ** Results of fallible calls *)

(** [Throw msg] is a thrown [Error] whose [message] is [msg]. *)
Inductive res (A : Type) :=
| Ok (a : A)
| Throw (msg : string).
Arguments Ok {A} a.
Arguments Throw {A} msg.

(** [p.catch(() => d)]. *)
Definition catch_default {A} (d : A) (r : res A) : A :=
  match r with
  | Ok a => a
  | Throw _ => d
  end.

(** ** The file system *)

Record Fs := {
  files : gmap string string;   (* path to contents *)
  unreadable : gset string;     (* readFileSync throws on these *)
  unwritable : gset string      (* writeFileSync and unlinkSync throw on these *)
}.

Definition existsSync (fs : Fs) (p : string) : bool :=
  bool_decide (is_Some (files fs !! p)).

Definition readFileSync (fs : Fs) (p : string) : res string :=
  if bool_decide (p ∈ unreadable fs) then Throw "EACCES: permission denied"
  else match files fs !! p with
       | Some data => Ok data
       | None => Throw "ENOENT: no such file or directory"
       end.

Definition writeFileSync (fs : Fs) (p data : string) : res Fs :=
  if bool_decide (p ∈ unwritable fs) then Throw "EACCES: permission denied"
  else Ok {| files := <[p := data]> (files fs);
             unreadable := unreadable fs;
             unwritable := unwritable fs |}.

Definition unlinkSync (fs : Fs) (p : string) : res Fs :=
  if bool_decide (p ∈ unwritable fs) then Throw "EACCES: permission denied"
  else match files fs !! p with
       | Some _ => Ok {| files := delete p (files fs);
                         unreadable := unreadable fs;
                         unwritable := unwritable fs |}
       | None => Throw "ENOENT: no such file or directory"
       end.

(** ** A reference instance of the JSON built-ins

    [JSON.stringify] and [JSON.parse] belong to the language, not to the
    repository: the session store below takes them as parameters.  The
    compact printer and the recursive-descent reader of this module are the
    instance at which the examples are evaluated.  String values are
    printed without escapes. *)

Module JsonRef.

Definition quote : ascii := "034"%char.

Fixpoint digits_of (fuel : nat) (n : Z) (acc : string) : string :=
  match fuel with
  | O => acc
  | S fuel' =>
      let acc' := String (ascii_of_nat (Z.to_nat (48 + n mod 10))) acc in
      if n / 10 =? 0 then acc' else digits_of fuel' (n / 10) acc'
  end.

Definition print_Z (n : Z) : string :=
  if n <? 0 then String "-" (digits_of (Z.to_nat (- n)) (- n) "")
  else digits_of (S (Z.to_nat n)) n "".

Fixpoint print (v : json) : string :=
  match v with
  | JNull => "null"
  | JBool true => "true"
  | JBool false => "false"
  | JNum n => print_Z n
  | JStr s => String quote s ++ String quote ""
  | JArr items => "[" ++ Js.join "," (map print items) ++ "]"
  | JObj fields =>
      "{" ++ Js.join ","
               (map (fun kv => String quote (fst kv) ++ String quote ":" ++ print (snd kv))
                    fields) ++ "}"
  end.

(** Splits [s] at the first quote: the text before it and the rest after. *)
Fixpoint read_string (s : string) : option (string * string) :=
  match s with
  | EmptyString => None
  | String c s' =>
      if Ascii.eqb c quote then Some ("", s')
      else '(t, rest) ← read_string s'; Some (String c t, rest)
  end.

Fixpoint read_number (s : string) (acc : Z) : Z * string :=
  match s with
  | String c s' =>
      if Js.is_digit c then read_number s' (10 * acc + Js.digit_value c) else (acc, s)
  | EmptyString => (acc, s)
  end.

Definition drop_prefix (p s : string) : option string :=
  if String.prefix p s
  then Some (String.substring (String.length p) (String.length s - String.length p) s)
  else None.

Fixpoint read_value (fuel : nat) (s : string) : option (json * string) :=
  match fuel with
  | O => None
  | S fuel' =>
      match s with
      | String "n" _ => rest ← drop_prefix "null" s; Some (JNull, rest)
      | String "t" _ => rest ← drop_prefix "true" s; Some (JBool true, rest)
      | String "f" _ => rest ← drop_prefix "false" s; Some (JBool false, rest)
      | String "[" (String "]" rest) => Some (JArr [], rest)
      | String "[" rest => '(items, rest') ← read_items fuel' rest; Some (JArr items, rest')
      | String "{" (String "}" rest) => Some (JObj [], rest)
      | String "{" rest => '(fields, rest') ← read_fields fuel' rest; Some (JObj fields, rest')
      | String "-" (String c rest) =>
          if Js.is_digit c
          then let '(n, rest') := read_number (String c rest) 0 in Some (JNum (- n), rest')
          else None
      | String c rest =>
          if Ascii.eqb c quote then '(t, rest') ← read_string rest; Some (JStr t, rest')
          else if Js.is_digit c
               then let '(n, rest') := read_number s 0 in Some (JNum n, rest')
               else None
      | EmptyString => None
      end
  end
with read_items (fuel : nat) (s : string) : option (list json * string) :=
  match fuel with
  | O => None
  | S fuel' =>
      '(v, rest) ← read_value fuel' s;
      match rest with
      | String "," rest' => '(vs, rest'') ← read_items fuel' rest'; Some (v :: vs, rest'')
      | String "]" rest' => Some ([v], rest')
      | _ => None
      end
  end
with read_fields (fuel : nat) (s : string) : option (list (string * json) * string) :=
  match fuel with
  | O => None
  | S fuel' =>
      match s with
      | String c s1 =>
          if Ascii.eqb c quote then
            '(k, s2) ← read_string s1;
            match s2 with
            | String ":" s3 =>
                '(v, rest) ← read_value fuel' s3;
                match rest with
                | String "," rest' =>
                    '(kvs, rest'') ← read_fields fuel' rest'; Some ((k, v) :: kvs, rest'')
                | String "}" rest' => Some ([(k, v)], rest')
                | _ => None
                end
            | _ => None
            end
          else None
      | EmptyString => None
      end
  end.

(** The whole text must be one value. *)
Definition parse (s : string) : option json :=
  match read_value (S (String.length s)) s with
  | Some (v, EmptyString) => Some v
  | _ => None
  end.

End JsonRef.

(** ** Accounts, events and the world *)

Record Account := {
  email : string;
  password : string;
  cookieFile : string
}.

(** The calls the scraper makes, in the order it makes them: the three
    functions of the session store, [tryWithAccount], and the Playwright API. *)
Inductive Event :=
| EvTry (account_email : string)
| EvSave (file : string) (cookies : list cookie) (userAgent : string)
| EvDelete (file : string)
| EvLaunch
| EvNewContext (userAgent : json) (storageCookies : option json)
| EvNewPage
| EvInitScript
| EvClose
| EvGoto (url : option Js.property)
| EvIsVisible (selector : string)
| EvFill (selector value : string)
| EvClick (selector : string)
| EvWaitForURL (fragment : string)
| EvTextContent (selector : string)
| EvCount (selector : string)
| EvScreenshot (path : string)
| EvCookies
| EvEvaluate (what : string)
| EvType (text : string)
| EvPress (key : string).

(** [heap] holds the arrays of accounts by reference (an index);
    [config.keywordToolAccounts] is the array at [config_keywordToolAccounts]. *)
Record World := {
  fs : Fs;
  heap : list (list Account);
  history : list Event
}.

Definition config_keywordToolAccounts : nat := 0%nat.

Definition set_fs (f : Fs) (w : World) : World :=
  {| fs := f; heap := heap w; history := history w |}.
Definition set_heap (h : list (list Account)) (w : World) : World :=
  {| fs := fs w; heap := h; history := history w |}.
Definition record (ev : Event) (w : World) : World :=
  {| fs := fs w; heap := heap w; history := history w ++ [ev] |}.

(** ** The monad of the scraper: state and exceptions *)

Definition M (A : Type) : Type := World -> res A * World.

Definition ret {A} (a : A) : M A := fun w => (Ok a, w).

Definition bind {A B} (m : M A) (f : A -> M B) : M B := fun w =>
  match m w with
  | (Ok a, w') => f a w'
  | (Throw e, w') => (Throw e, w')
  end.

Declare Scope M_scope.
Delimit Scope M_scope with M.
Notation "x <- y ; z" := (bind y (fun x => z))
  (at level 20, y at level 100, z at level 200, only parsing) : M_scope.
Notation "x ;; z" := (bind x (fun _ => z))
  (at level 100, z at level 200, only parsing, right associativity) : M_scope.
Local Open Scope M_scope.

Definition throw {A} (msg : string) : M A := fun w => (Throw msg, w).

(** [try { m } catch (err) { h err }]. *)
Definition try_catch {A} (m : M A) (h : string -> M A) : M A := fun w =>
  match m w with
  | (Ok a, w') => (Ok a, w')
  | (Throw e, w') => h e w'
  end.

(** [try { m } finally { f }]: an exception of [f] replaces the outcome of [m]. *)
Definition try_finally {A} (m : M A) (f : M unit) : M A := fun w =>
  let '(r, w') := m w in
  match f w' with
  | (Ok _, w'') => (r, w'')
  | (Throw e, w'') => (Throw e, w'')
  end.

(** [m.catch(() => d)]. *)
Definition catching {A} (d : A) (m : M A) : M A := try_catch m (fun _ => ret d).

(** A call of the browser API: it is recorded and answers [r]. *)
Definition call {A} (ev : Event) (r : res A) : M A := fun w => (r, record ev w).

Definition mark (ev : Event) : M unit := fun w => (Ok tt, record ev w).
Definition get_fs : M Fs := fun w => (Ok (fs w), w).
Definition put_fs (f : Fs) : M unit := fun w => (Ok tt, set_fs f w).
Definition lift {A} (r : res A) : M A := fun w => (r, w).

(** [[...arr]]: a new array with the same elements. *)
Definition array_spread (r : nat) : M nat := fun w =>
  match heap w !! r with
  | Some l => (Ok (length (heap w)), set_heap (heap w ++ [l]) w)
  | None => (Throw "TypeError: object is not iterable", w)
  end.

(** [arr.sort(cmp)] sorts the array in place. *)
Definition array_sort (r : nat) (cmp : Account -> Account -> Z) : M unit := fun w =>
  match heap w !! r with
  | Some l => (Ok tt, set_heap (<[r := Js.sort cmp l]> (heap w)) w)
  | None => (Throw "TypeError: cannot read properties of undefined", w)
  end.

Definition array_read (r : nat) : M (list Account) := fun w =>
  match heap w !! r with
  | Some l => (Ok l, w)
  | None => (Throw "TypeError: cannot read properties of undefined", w)
  end.

(** ** Platform URL map and tab mapping

    The own properties of the two object literals; [PLATFORM_URLS[platform]]
    and [TAB_MAP[tab]] are [Js.member PLATFORM_URLS platform] and
    [Js.member TAB_MAP tab]. *)

Definition PLATFORM_URLS (platform : string) : option string :=
  if String.eqb platform "google" then Some "https://keywordtool.io/google"
  else if String.eqb platform "youtube" then Some "https://keywordtool.io/youtube"
  else if String.eqb platform "instagram" then Some "https://keywordtool.io/instagram"
  else if String.eqb platform "tiktok" then Some "https://keywordtool.io/tiktok"
  else if String.eqb platform "google-trends" then Some "https://keywordtool.io/google-trends"
  else None.

Definition PLATFORM_KEYS : list string :=
  ["google"; "youtube"; "instagram"; "tiktok"; "google-trends"].

Definition TAB_MAP (tab : string) : option string :=
  if String.eqb tab "suggestions" then Some "Keyword Suggestions"
  else if String.eqb tab "questions" then Some "Questions"
  else if String.eqb tab "prepositions" then Some "Prepositions"
  else if String.eqb tab "related" then Some "Related Keywords"
  else None.

(** ** What the pages answer *)

(** Answers to the calls of [loginIfNeeded], by line of the source.  The
    text content of the body is a string (the element exists on every
    page); that of the alert is a string too, [null] being as empty as
    [""] for the test of line 140. *)
Record LoginPage := {
  lp_login_link_visible : res bool;   (* 61 *)
  lp_user_menu_visible : res bool;    (* 66 *)
  lp_url_before : string;             (* 77 *)
  lp_goto_login : res unit;           (* 78 *)
  lp_fill_email : res unit;           (* 83 *)
  lp_fill_password : res unit;        (* 85 *)
  lp_click_submit : res unit;         (* 89 *)
  lp_screenshot : res unit;           (* 94 *)
  lp_wait_redirect : res unit;        (* 102 *)
  lp_url_after : string;              (* 113 *)
  lp_body_text : res string;          (* 114 *)
  lp_error_text : res string;         (* 135 *)
  lp_cookies : res (list cookie);     (* 145 *)
  lp_user_agent : res string          (* 146 *)
}.

(** Answers to the calls of [setLanguageIndonesian].  A [null] text of the
    language control makes [selectedLang.trim()] throw inside the [try]: it
    is one of the errors of [lg_selected]. *)
Record LanguagePage := {
  lg_selected : res string;           (* 158 *)
  lg_open : res unit;                 (* 168 *)
  lg_fill : res unit;                 (* 172 *)
  lg_option_visible : res bool;       (* 176 *)
  lg_option_click : res unit;         (* 179 *)
  lg_enter : res unit;                (* 183 *)
  lg_keyboard_type : res unit;        (* 190 *)
  lg_keyboard_enter : res unit        (* 192 *)
}.

(** A table cell and a table row as the in-page function of
    [extractKeywords] reads them. *)
Record Cell := {
  classList : list string;
  innerHTML : string;
  textContent : string;
  has_blur_descendant : bool          (* querySelector('.blur') !== null *)
}.

Record Row := {
  has_colspan_cell : bool;            (* row.querySelector('td[colspan]') *)
  cells : list Cell                   (* row.querySelectorAll('td') *)
}.

(** Answers to the calls of [extractKeywords]: the row count at each of the
    waiting attempts and the rows present when the table is read. *)
Record TablePage := {
  tb_count : nat -> res nat;          (* 202 *)
  tb_rows : res (list Row)            (* 219 *)
}.

(** What the in-page function of lines 410-418 found in the body text. *)
Record Stats := {
  st_totalSearchVolume : option Z;
  st_averageTrend : option string
}.

(** Answers to the calls of one run of [tryWithAccount]. *)
Record Scenario := {
  sc_random_user_agent : string;      (* 292 *)
  sc_launch : res unit;               (* 296 *)
  sc_new_context : res unit;          (* 328 *)
  sc_new_page : res unit;             (* 329 *)
  sc_init_script : res unit;          (* 332 *)
  sc_goto_platform : res unit;        (* 340 *)
  sc_login : LoginPage;               (* 349 *)
  sc_url_after_login : string;        (* 356 *)
  sc_goto_again : res unit;           (* 358 *)
  sc_language : LanguagePage;         (* 366 *)
  sc_input_click : res unit;          (* 371 *)
  sc_input_clear : res unit;          (* 372 *)
  sc_input_fill : res unit;           (* 374 *)
  sc_search_click : res unit;         (* 378 *)
  sc_wait_results : res unit;         (* 383 *)
  sc_tab_click : res unit;            (* 397 *)
  sc_stats : res Stats;               (* 410 *)
  sc_table : TablePage;               (* 424 *)
  sc_cookies : res (list cookie);     (* 436 *)
  sc_user_agent : res string;         (* 438 *)
  sc_close : res unit                 (* 463 *)
}.

(** ** Records and results *)

Record KeywordRecord := {
  keyword : string;
  searchVolume : Z;
  searchVolumeFormatted : string;
  trend : string;
  isDataAvailable : bool
}.

(** [maxVolume] is a number or [Infinity]. *)
Inductive Max :=
| Num (n : Z)
| Infinity.

(** The [maxVolume] of the returned filter: a number or ['unlimited']. *)
Inductive MaxShown :=
| shown (n : Z)
| unlimited.

Record Options := {
  opt_platform : option string;
  opt_tab : option string;
  opt_minVolume : option Z;
  opt_maxVolume : option Max
}.

Record VolumeFilter := {
  minVolume : Z;
  maxVolume : MaxShown
}.

Record KeywordResultSet := {
  account : string;
  totalKeywordsFound : nat;
  totalSearchVolume : Z;
  averageTrend : string;
  volume_filter : VolumeFilter;
  filteredCount : nat;
  keywords : list KeywordRecord
}.

(** One entry of the [errors] array of [scrapeKeywords]. *)
Record AttemptError := {
  failed_account : string;
  failed_error : string
}.

(** ** Selectors and messages *)

Definition dq : string := String "034"%char "".

Definition sel_login_link : string := "a[href=" ++ dq ++ "/user/login" ++ dq ++ "]".
Definition sel_user_menu : string := ".user-account, .avatar, text=My Account".
Definition sel_submit : string := "button[type=" ++ dq ++ "submit" ++ dq ++ "]".
Definition sel_alert : string := ".alert-danger, .alert-error, .text-error, .text-red-500".
Definition sel_keyword_input : string := "input[id*=" ++ dq ++ "keyword" ++ dq ++ "]".
Definition sel_search_button : string := "form button.btn.btn-primary, button.btn.btn-primary".
Definition sel_rows : string := "table tbody tr".
Definition sel_lang_control : string := ".ts-wrapper .ts-control".
Definition sel_lang_input : string := ".ts-wrapper input.dropdown-input".
Definition sel_lang_option : string := ".ts-dropdown .option".
Definition login_url : string := "https://keywordtool.io/user/login".

Definition nonempty (s : string) : bool := negb (String.eqb s "").

Definition msg_challenged (account : Account) : string :=
  "OTP/verifikasi diperlukan untuk " ++ email account.

Definition msg_rejected (account : Account) (errorMsg : string) : string :=
  let errDetail := if nonempty errorMsg then ": " ++ Js.trim errorMsg else "" in
  "Login gagal untuk " ++ email account ++ errDetail.

Definition msg_invalid_platform (platform : string) : string :=
  "Invalid platform: " ++ dq ++ platform ++ dq ++ ". Valid: " ++ Js.join ", " PLATFORM_KEYS.

Definition msg_no_accounts : string :=
  "Tidak ada akun KeywordTool.io dikonfigurasi di .env".

Definition msg_all_failed (errors : list AttemptError) : string :=
  let errorDetails :=
    Js.join " | " (map (fun e => failed_account e ++ ": " ++ failed_error e) errors) in
  "Semua akun gagal login. " ++ errorDetails.

(** ** Extraction of one row (lines 223-274) *)

(** Lines 237-241 and 243-247. *)
Definition is_blurred (c : Cell) : bool :=
  existsb (String.eqb "blur") (classList c)
  || Js.includes (innerHTML c) "blur"
  || has_blur_descendant c.

Definition is_comma (c : ascii) : bool := Ascii.eqb c ","%char.

(** Lines 258-264. *)
Definition parse_volume (volumeText : string) : Z :=
  if negb (String.eqb volumeText "-") then
    let cleanVolume := Js.remove_chars Js.is_white (Js.remove_chars is_comma volumeText) in
    if nonempty cleanVolume then
      match Js.parseInt cleanVolume with
      | Some n => n
      | None => 0
      end
    else 0
  else 0.

(** The body of the [forEach]: [None] when the row pushes nothing. *)
Definition row_record (row : Row) : option KeywordRecord :=
  if has_colspan_cell row then None
  else if (length (cells row) <? 3)%nat then None
  else
    match cells row !! 2%nat with
    | None => None
    | Some volCell =>
        let keyword :=
          match cells row !! 1%nat with
          | Some keywordEl => Js.trim (textContent keywordEl)
          | None => ""
          end in
        let trendCell :=
          if (3 <? length (cells row))%nat then cells row !! 3%nat else None in
        let isVolumeBlurred := is_blurred volCell in
        let isTrendBlurred :=
          match trendCell with
          | Some c => is_blurred c
          | None => false
          end in
        let volumeText := if isVolumeBlurred then "-" else Js.trim (textContent volCell) in
        let trendText :=
          if isTrendBlurred then "-"
          else match trendCell with
               | Some c => Js.trim (textContent c)
               | None => "-"
               end in
        if nonempty keyword then
          Some {| keyword := keyword;
                  searchVolume := parse_volume volumeText;
                  searchVolumeFormatted := volumeText;
                  trend := if nonempty trendText then trendText else "-";
                  isDataAvailable := negb isVolumeBlurred |}
        else None
    end.

(** The in-page function of lines 219-277. *)
Definition extract_rows (rows : list Row) : list KeywordRecord := omap row_record rows.

(** Lines 444-446. *)
Definition le_max (n : Z) (m : Max) : bool :=
  match m with
  | Num k => n <=? k
  | Infinity => true
  end.

Definition in_volume_range (lo : Z) (hi : Max) (kw : KeywordRecord) : bool :=
  (lo <=? searchVolume kw) && le_max (searchVolume kw) hi.

Definition show_max (m : Max) : MaxShown :=
  match m with
  | Num k => shown k
  | Infinity => unlimited
  end.

(** Lines 494-500: the comparison function of the sort. *)
Definition cookie_priority (f : Fs) (a b : Account) : Z :=
  let aExists := existsSync f (cookieFile a) in
  let bExists := existsSync f (cookieFile b) in
  if aExists && negb bExists then -1
  else if negb aExists && bExists then 1
  else 0.

(** Lines 117-129. *)
Definition challenge_signal (currentUrl bodyLower : string) : bool :=
  Js.includes currentUrl "/otp"
  || Js.includes currentUrl "/verify"
  || Js.includes currentUrl "/captcha"
  || Js.includes currentUrl "/two-factor"
  || Js.includes bodyLower "one-time password"
  || Js.includes bodyLower "otp"
  || Js.includes bodyLower "verification code"
  || Js.includes bodyLower "verify your"
  || Js.includes bodyLower "too many"
  || Js.includes bodyLower "rate limit"
  || Js.includes bodyLower "captcha".

(** ** Configuration ([src/config.js], lines 14-28)

    [process.env] is a finite map from names to strings; [__dirname] is
    the directory of the file, an absolute path without a slash at its
    end, which is what [path.join] needs to give the concatenation below. *)

(** [process.env.NAME || '']. *)
Definition env_or_empty (env : gmap string string) (name : string) : string :=
  default "" (env !! name).

(** The [n]-th object of the array literal, [n] being 1, 2 or 3. *)
Definition account_slot (dirname : string) (env : gmap string string) (n : string) : Account :=
  {| email := env_or_empty env ("KEYWORDTOOL_EMAIL_" ++ n);
     password := env_or_empty env ("KEYWORDTOOL_PASSWORD_" ++ n);
     cookieFile := dirname ++ "/scraper/.kt-cookies-" ++ n ++ ".json" |}.

(** [keywordToolAccounts]: the three objects, filtered by
    [(a) => a.email && a.password]. *)
Definition keywordToolAccounts (dirname : string) (env : gmap string string) : list Account :=
  List.filter (fun a => nonempty (email a) && nonempty (password a))
    [account_slot dirname env "1"; account_slot dirname env "2"; account_slot dirname env "3"].

(** ** The keywords endpoint ([src/server.js], lines 132-194): requests and
    responses

    The query parameters are given at most once each, so that they are
    strings.  The two time stamps of the success body come from the clock
    and are left out. *)

Record Query := {
  query_keyword : option string;
  query_tab : option string;
  query_minVolume : option string;
  query_maxVolume : option string
}.

Inductive Body :=
| BodyInvalidPlatform (error : string) (validPlatforms : list string) (usage : string)
| BodyMissingKeyword (error usage : string)
| BodySuccess (keyword platform tab : string) (result : KeywordResultSet)
| BodyFailure (error message : string).

Record Response := {
  statusCode : Z;
  body : Body
}.

(** Line 156: [Math.max(parseInt(minVolume, 10) || 0, 0)]. *)
Definition parse_min_volume (minVolume : string) : Z :=
  Z.max (match Js.parseInt minVolume with
         | Some n => n
         | None => 0
         end) 0.

(** Line 157: [maxVolume ? parseInt(maxVolume, 10) || Infinity : Infinity]. *)
Definition parse_max_volume (maxVolume : option string) : Max :=
  match maxVolume with
  | Some s =>
      if nonempty s then
        match Js.parseInt s with
        | Some n => if n =? 0 then Infinity else Num n
        | None => Infinity
        end
      else Infinity
  | None => Infinity
  end.

(** Lines 184-186. *)
Definition failure_status (message : string) : Z :=
  let statusCode := if Js.includes message "Login gagal" then 401 else 500 in
  if Js.includes message "OTP" || Js.includes message "verifikasi" then 503
  else statusCode.

Definition usage_platform : string :=
  "GET /api/keywords/google?keyword=<term>&minVolume=50&maxVolume=200".
Definition usage_keyword : string :=
  "GET /api/keywords/google?keyword=lny+hok+2026&minVolume=50&maxVolume=200".

(** ** Example runs *)

Module Ex.

Definition alice : Account :=
  {| email := "alice@example.com"; password := "pw-a"; cookieFile := ".kt-cookies-1.json" |}.
Definition bob : Account :=
  {| email := "bob@example.com"; password := "pw-b"; cookieFile := ".kt-cookies-2.json" |}.
Definition carol : Account :=
  {| email := "carol@example.com"; password := "pw-c"; cookieFile := ".kt-cookies-3.json" |}.
Definition dave : Account :=
  {| email := "dave@example.com"; password := "pw-d"; cookieFile := ".kt-cookies-4.json" |}.

Definition sid (v : string) : cookie :=
  JObj [("name", JStr "sid"); ("value", JStr v); ("expires", JNum (-1))].

(** The session bob saved in an earlier run. *)
Definition stale : string := JsonRef.print (session_json [sid "old"] "UA/0").

Definition disk : Fs :=
  {| files := {[ cookieFile bob := stale ]}; unreadable := ∅; unwritable := ∅ |}.

Definition world (configured : list Account) : World :=
  {| fs := disk; heap := [configured]; history := [] |}.

Definition options : Options :=
  {| opt_platform := Some "google"; opt_tab := None;
     opt_minVolume := Some 100; opt_maxVolume := Some (Num 5000) |}.

(** A login page on which the credentials go through without trouble. *)
Definition login_page (link menu : bool) (redirect : res unit) (url body alert : string)
    : LoginPage :=
  {| lp_login_link_visible := Ok link;
     lp_user_menu_visible := Ok menu;
     lp_url_before := "https://keywordtool.io/google";
     lp_goto_login := Ok tt;
     lp_fill_email := Ok tt;
     lp_fill_password := Ok tt;
     lp_click_submit := Ok tt;
     lp_screenshot := Ok tt;
     lp_wait_redirect := redirect;
     lp_url_after := url;
     lp_body_text := Ok body;
     lp_error_text := Ok alert;
     lp_cookies := Ok [sid "fresh"];
     lp_user_agent := Ok "UA/1" |}.

Definition already_in : LoginPage :=
  login_page false true (Ok tt) "https://keywordtool.io/google" "" "".
Definition no_link_no_menu : LoginPage :=
  login_page false false (Ok tt) "https://keywordtool.io/google" "Welcome" "".
Definition authenticated : LoginPage :=
  login_page true false (Ok tt) "https://keywordtool.io/google" "Welcome back" "".
Definition rejected : LoginPage :=
  login_page true false (Throw "Timeout 15000ms exceeded")
    "https://keywordtool.io/user/login" "Sign in" " Wrong password ".
Definition challenged : LoginPage :=
  login_page true false (Ok tt) "https://keywordtool.io/verify"
    "Enter the Verification Code we sent" "".

Definition language : LanguagePage :=
  {| lg_selected := Ok "English"; lg_open := Ok tt; lg_fill := Ok tt;
     lg_option_visible := Ok true; lg_option_click := Ok tt; lg_enter := Ok tt;
     lg_keyboard_type := Ok tt; lg_keyboard_enter := Ok tt |}.

Definition cell (classes : list string) (html text : string) : Cell :=
  {| classList := classes; innerHTML := html; textContent := text;
     has_blur_descendant := false |}.

Definition row (kw : string) (vol : Cell) : Row :=
  {| has_colspan_cell := false;
     cells := [cell [] "" ""; cell [] kw kw; vol; cell [] "+5%" " +5% "] |}.

Definition blurred_rows : list Row :=
  [row "running shoes" (cell ["blur"] "12,100" "12,100");
   row "trail shoes" (cell [] "<span class=blur>880</span>" "880")].

Definition real_rows : list Row :=
  [row "running shoes" (cell [] "12,100" " 12,100 ");
   row "trail shoes" (cell [] "880" "880");
   row "shoe laces" (cell [] "90" "90");
   row "shoe rack" (cell ["blur"] "1,300" "1,300")].

Definition table (rows : list Row) : TablePage :=
  {| tb_count := fun attempt => if (attempt =? 0)%nat then Ok 0%nat else Ok (length rows);
     tb_rows := Ok rows |}.

Definition broken_table (msg : string) : TablePage :=
  {| tb_count := fun _ => Ok 2%nat; tb_rows := Throw msg |}.

Definition scenario (login : LoginPage) (tb : TablePage) : Scenario :=
  {| sc_random_user_agent := "UA/random";
     sc_launch := Ok tt; sc_new_context := Ok tt; sc_new_page := Ok tt;
     sc_init_script := Ok tt; sc_goto_platform := Ok tt;
     sc_login := login;
     sc_url_after_login := "https://keywordtool.io/google";
     sc_goto_again := Ok tt;
     sc_language := language;
     sc_input_click := Ok tt; sc_input_clear := Ok tt; sc_input_fill := Ok tt;
     sc_search_click := Ok tt; sc_wait_results := Ok tt; sc_tab_click := Ok tt;
     sc_stats := Ok {| st_totalSearchVolume := Some 14370; st_averageTrend := Some "+5%" |};
     sc_table := tb;
     sc_cookies := Ok [sid "kept"];
     sc_user_agent := Ok "UA/2";
     sc_close := Ok tt |}.

(** Bob's login is rejected and the attempt goes on as guest. *)
Definition guest_after_rejection (i : nat) : Scenario := scenario rejected (table blurred_rows).
Definition guest_after_challenge (i : nat) : Scenario := scenario challenged (table blurred_rows).

(** A credential login that succeeds on a free account. *)
Definition fresh_login_blurred : Scenario := scenario authenticated (table blurred_rows).
Definition session_real : Scenario := scenario already_in (table real_rows).

(** The first two attempts fail, the third returns. *)
Definition third_succeeds (i : nat) : Scenario :=
  match i with
  | 0%nat => scenario already_in (broken_table "page crashed")
  | 1%nat => scenario rejected (broken_table "Target closed")
  | _ => session_real
  end.

Definition all_fail (i : nat) : Scenario :=
  match i with
  | 0%nat => scenario already_in (broken_table "page crashed")
  | _ => scenario rejected (broken_table "Target closed")
  end.

Definition reasons (i : nat) : string :=
  match i with
  | 0%nat => "page crashed"
  | _ => "Target closed"
  end.

Definition real_records : list KeywordRecord :=
  [ {| keyword := "running shoes"; searchVolume := 12100; searchVolumeFormatted := "12,100";
       trend := "+5%"; isDataAvailable := true |};
    {| keyword := "trail shoes"; searchVolume := 880; searchVolumeFormatted := "880";
       trend := "+5%"; isDataAvailable := true |};
    {| keyword := "shoe laces"; searchVolume := 90; searchVolumeFormatted := "90";
       trend := "+5%"; isDataAvailable := true |};
    {| keyword := "shoe rack"; searchVolume := 0; searchVolumeFormatted := "-";
       trend := "+5%"; isDataAvailable := false |} ].

Definition blurred_records : list KeywordRecord :=
  [ {| keyword := "running shoes"; searchVolume := 0; searchVolumeFormatted := "-";
       trend := "+5%"; isDataAvailable := false |};
    {| keyword := "trail shoes"; searchVolume := 0; searchVolumeFormatted := "-";
       trend := "+5%"; isDataAvailable := false |} ].

Definition kept_records : list KeywordRecord :=
  [ {| keyword := "trail shoes"; searchVolume := 880; searchVolumeFormatted := "880";
       trend := "+5%"; isDataAvailable := true |} ].

Definition result (who : Account) (found : list KeywordRecord) (kept : list KeywordRecord)
    : KeywordResultSet :=
  {| account := email who;
     totalKeywordsFound := length found;
     totalSearchVolume := 14370;
     averageTrend := "+5%";
     volume_filter := {| minVolume := 100; maxVolume := shown 5000 |};
     filteredCount := length kept;
     keywords := kept |}.

(** A row whose volume cell reads as a negative number. *)
Definition negative_rows : list Row :=
  [row "odd shoes" (cell [] "-50" " -50 ")].

Definition negative_record : KeywordRecord :=
  {| keyword := "odd shoes"; searchVolume := -50; searchVolumeFormatted := "-50";
     trend := "+5%"; isDataAvailable := true |}.


(** A request of the keywords endpoint. *)
Definition query : Query :=
  {| query_keyword := Some " shoes "; query_tab := None;
     query_minVolume := Some "100"; query_maxVolume := Some "5000" |}.

End Ex.

Section Scraper.

(** The JSON built-ins; [None] is a [SyntaxError]. *)
Variable JSON_stringify : json -> string.
Variable JSON_parse : string -> option json.

(** ** Cookie management (lines 24-53) *)

Definition loadCookies (cookieFile : string) : M json :=
  try_catch
    (f <- get_fs;
     if existsSync f cookieFile then
       data <- lift (readFileSync f cookieFile);
       match JSON_parse data with
       | Some v => ret v
       | None => throw "SyntaxError"
       end
     else ret JNull)
    (fun err => ret JNull).

Definition saveCookies (cookieFile : string) (cookies : list cookie)
    (userAgent : string) : M unit :=
  mark (EvSave cookieFile cookies userAgent);;
  try_catch
    (let data := session_json cookies userAgent in
     f <- get_fs;
     f' <- lift (writeFileSync f cookieFile (JSON_stringify data));
     put_fs f')
    (fun err => ret tt).

Definition deleteCookies (cookieFile : string) : M unit :=
  mark (EvDelete cookieFile);;
  try_catch
    (f <- get_fs;
     if existsSync f cookieFile then
       f' <- lift (unlinkSync f cookieFile);
       put_fs f'
     else ret tt)
    (fun _ => ret tt).

(** ** Login flow (lines 56-151) *)

(** Lines 74-150: the credential submission and what follows it. *)
Definition submit_credentials (p : LoginPage) (account : Account) : M bool :=
  (if negb (Js.includes (lp_url_before p) "/user/login")
   then call (EvGoto (Some (Js.Own login_url))) (lp_goto_login p)
   else ret tt);;
  try_catch
    (call (EvFill "input#email" (email account)) (lp_fill_email p);;
     call (EvFill "input#password" (password account)) (lp_fill_password p);;
     call (EvClick sel_submit) (lp_click_submit p))
    (fun fillError =>
       let safeEmail := Js.replace_chars (fun c => negb (Js.is_alnum c)) "_" (email account) in
       call (EvScreenshot ("debug-login-failed-" ++ safeEmail ++ ".png")) (lp_screenshot p);;
       throw fillError);;
  redirected <- try_catch
    (call (EvWaitForURL "/user/login") (lp_wait_redirect p);; ret true)
    (fun _ => ret false);
  let currentUrl := lp_url_after p in
  bodyText <- catching "" (call (EvTextContent "body") (lp_body_text p));
  let bodyLower := Js.toLowerCase bodyText in
  if challenge_signal currentUrl bodyLower then throw (msg_challenged account)
  else if negb redirected || Js.includes currentUrl "/user/login" then
    errorMsg <- catching "" (call (EvTextContent sel_alert) (lp_error_text p));
    throw (msg_rejected account errorMsg)
  else
    cookies <- call EvCookies (lp_cookies p);
    currentUserAgent <- call (EvEvaluate "navigator.userAgent") (lp_user_agent p);
    saveCookies (cookieFile account) cookies currentUserAgent;;
    ret true.

Definition loginIfNeeded (p : LoginPage) (account : Account) : M bool :=
  isLoginVisible <- catching false (call (EvIsVisible sel_login_link) (lp_login_link_visible p));
  if negb isLoginVisible then
    isUserMenuVisible <- catching false (call (EvIsVisible sel_user_menu) (lp_user_menu_visible p));
    if isUserMenuVisible then ret true
    else submit_credentials p account
  else submit_credentials p account.

(** ** Language (lines 154-196) *)

Definition setLanguageIndonesian (p : LanguagePage) : M unit :=
  try_catch
    (selectedLang <- call (EvTextContent sel_lang_control) (lg_selected p);
     if nonempty selectedLang && Js.startsWith (Js.trim selectedLang) "Indonesian"
     then ret tt
     else
       call (EvClick sel_lang_control) (lg_open p);;
       call (EvFill sel_lang_input "Indonesian") (lg_fill p);;
       optVisible <- catching false (call (EvIsVisible sel_lang_option) (lg_option_visible p));
       if optVisible then call (EvClick sel_lang_option) (lg_option_click p)
       else call (EvPress "Enter") (lg_enter p))
    (fun err =>
       try_catch
         (call (EvType "Indonesian") (lg_keyboard_type p);;
          call (EvPress "Enter") (lg_keyboard_enter p))
         (fun _ => ret tt)).

(** ** Extraction (lines 199-280) *)

(** The loop of lines 201-210 with [n] iterations left. *)
Fixpoint wait_for_table (p : TablePage) (n attempt : nat) : M bool :=
  match n with
  | O => ret false
  | S n' =>
      count <- catching 0%nat (call (EvCount sel_rows) (tb_count p attempt));
      if (0 <? count)%nat then ret true
      else wait_for_table p n' (S attempt)
  end.

Definition extractKeywords (p : TablePage) : M (list KeywordRecord) :=
  tableFound <- wait_for_table p 3 0;
  if negb tableFound then ret []
  else
    rows <- call (EvEvaluate "table tbody tr") (tb_rows p);
    ret (extract_rows rows).

(** ** One account (lines 283-465) *)

(** The body of the [try] after the browser was launched (lines 306-461). *)
Definition attempt_body (account : Account) (keyword : string) (options : Options)
    (sc : Scenario) : M KeywordResultSet :=
  let platform := default "google" (opt_platform options) in
  let tab := default "suggestions" (opt_tab options) in
  let minVolume := default 0 (opt_minVolume options) in
  let maxVolume := default Infinity (opt_maxVolume options) in
  let platformUrl := Js.member PLATFORM_URLS platform in
  let userAgent := sc_random_user_agent sc in
  savedData <- loadCookies (cookieFile account);
  let hasCookies := json_truthy savedData && truthy (json_get "cookies" savedData) in
  let storageCookies := if hasCookies then json_get "cookies" savedData else None in
  let contextUserAgent :=
    if hasCookies && truthy (json_get "userAgent" savedData)
    then default (JStr userAgent) (json_get "userAgent" savedData)
    else JStr userAgent in
  call (EvNewContext contextUserAgent storageCookies) (sc_new_context sc);;
  call EvNewPage (sc_new_page sc);;
  call EvInitScript (sc_init_script sc);;
  call (EvGoto platformUrl) (sc_goto_platform sc);;
  try_catch
    (loginIfNeeded (sc_login sc) account;; ret tt)
    (fun loginErr => ret tt);;
  let currentUrl := sc_url_after_login sc in
  (if negb (Js.includes currentUrl
              (if String.eqb platform "google-trends" then "google-trends"
               else "/" ++ platform))
   then call (EvGoto platformUrl) (sc_goto_again sc)
   else ret tt);;
  setLanguageIndonesian (sc_language sc);;
  call (EvClick sel_keyword_input) (sc_input_click sc);;
  call (EvFill sel_keyword_input "") (sc_input_clear sc);;
  call (EvFill sel_keyword_input keyword) (sc_input_fill sc);;
  call (EvClick sel_search_button) (sc_search_click sc);;
  try_catch (call (EvWaitForURL "/search/") (sc_wait_results sc)) (fun _ => ret tt);;
  (if nonempty tab && negb (String.eqb tab "suggestions") then
     match Js.member TAB_MAP tab with
     | Some tabLabel =>
         try_catch (call (EvClick ("a.nav-link " ++ Js.property_text tabLabel))
                      (sc_tab_click sc))
                   (fun err => ret tt)
     | None => ret tt
     end
   else ret tt);;
  stats <- try_catch
    (statsText <- call (EvEvaluate "stats") (sc_stats sc);
     ret (match st_totalSearchVolume statsText with
           | Some n => n
           | None => 0
           end,
           match st_averageTrend statsText with
           | Some t => if nonempty t then t else "-"
           | None => "-"
           end))
    (fun _ => ret (0, "-"));
  allKeywords <- extractKeywords (sc_table sc);
  (if (0 <? length allKeywords)%nat then
     let hasAnyRealData := existsb isDataAvailable allKeywords in
     if negb hasAnyRealData then ret tt
     else
       cookies <- call EvCookies (sc_cookies sc);
       currentUserAgent <- call (EvEvaluate "navigator.userAgent") (sc_user_agent sc);
       saveCookies (cookieFile account) cookies currentUserAgent
   else ret tt);;
  let filtered := List.filter (in_volume_range minVolume maxVolume) allKeywords in
  ret {| account := email account;
          totalKeywordsFound := length allKeywords;
          totalSearchVolume := fst stats;
          averageTrend := snd stats;
          volume_filter := {| minVolume := minVolume; maxVolume := show_max maxVolume |};
          filteredCount := length filtered;
          keywords := filtered |}.

(** When [chromium.launch] throws, [browser] is still undefined and the
    [finally] closes nothing; after it, the [finally] closes the browser on
    every path. *)
Definition tryWithAccount (account : Account) (keyword : string) (options : Options)
    (sc : Scenario) : M KeywordResultSet :=
  call EvLaunch (sc_launch sc);;
  try_finally (attempt_body account keyword options sc) (call EvClose (sc_close sc)).

(** ** All accounts (lines 479-523) *)

(** The loop of lines 504-518 from index [i] on, over the accounts left:
    nothing writes to the array while the loop runs, so [accounts[i]] and
    [accounts.length] are those of the array read when it starts. *)
Fixpoint scrape_loop (keyword : string) (options : Options) (scs : nat -> Scenario)
    (accounts : list Account) (i : nat) (errors : list AttemptError)
    : M KeywordResultSet :=
  match accounts with
  | [] => throw (msg_all_failed errors)
  | account :: rest =>
      try_catch
        (mark (EvTry (email account));;
         tryWithAccount account keyword options (scs i))
        (fun err =>
           deleteCookies (cookieFile account);;
           scrape_loop keyword options scs rest (S i)
             (errors ++ [{| failed_account := email account; failed_error := err |}]))
  end.

Definition scrapeKeywords (keyword : string) (options : Options)
    (scs : nat -> Scenario) : M KeywordResultSet :=
  let platform := default "google" (opt_platform options) in
  match Js.member PLATFORM_URLS platform with
  | None => throw (msg_invalid_platform platform)
  | Some platformUrl =>
      accounts <- array_spread config_keywordToolAccounts;
      list <- array_read accounts;
      if (length list =? 0)%nat then throw msg_no_accounts
      else
        f <- get_fs;
        array_sort accounts (cookie_priority f);;
        sorted <- array_read accounts;
        scrape_loop keyword options scs sorted 0 []
  end.

(** ** The keywords endpoint (lines 132-194) *)

Definition keywords_handler (platform : string) (query : Query) (scs : nat -> Scenario)
    : M Response :=
  try_catch
    (let tab := default "suggestions" (query_tab query) in
     let minVolume := default "0" (query_minVolume query) in
     let maxVolume := query_maxVolume query in
     let validPlatforms := PLATFORM_KEYS in
     if negb (existsb (String.eqb platform) validPlatforms) then
       ret {| statusCode := 400;
              body := BodyInvalidPlatform ("Invalid platform: " ++ dq ++ platform ++ dq)
                        validPlatforms usage_platform |}
     else
       match query_keyword query with
       | None =>
           ret {| statusCode := 400;
                  body := BodyMissingKeyword "Missing required parameter: keyword" usage_keyword |}
       | Some keyword =>
           if (String.length (Js.trim keyword) =? 0)%nat then
             ret {| statusCode := 400;
                    body := BodyMissingKeyword "Missing required parameter: keyword"
                              usage_keyword |}
           else
             let parsedMinVolume := parse_min_volume minVolume in
             let parsedMaxVolume := parse_max_volume maxVolume in
             result <- scrapeKeywords keyword
                         {| opt_platform := Some platform;
                            opt_tab := Some tab;
                            opt_minVolume := Some parsedMinVolume;
                            opt_maxVolume := Some parsedMaxVolume |} scs;
             ret {| statusCode := 200;
                    body := BodySuccess (Js.trim keyword) platform tab result |}
       end)
    (fun message =>
       ret {| statusCode := failure_status message;
              body := BodyFailure "Failed to scrape keyword data" message |}).

(** ** Vocabulary of the statements *)

Definition after (w : World) (f : Fs) (evs : list Event) : World :=
  {| fs := f; heap := heap w; history := history w ++ evs |}.

(** [behaves P m r]: in every world [m] ends with [r], appends only events
    satisfying [P], and does not touch the heap. *)
Definition behaves {A} (P : Event -> Prop) (m : M A) (r : res A) : Prop :=
  forall w, exists evs f, m w = (r, after w f evs) /\ Forall P evs.

Definition tame {A} (P : Event -> Prop) (m : M A) : Prop := exists r, behaves P m r.

(** Computations that only read the world and cannot throw. *)
Definition reader {A} (m : M A) : Prop := forall w, exists a, m w = (Ok a, w).

(** Events of the browser API. *)
Definition browser_event (ev : Event) : bool :=
  match ev with
  | EvTry _ | EvSave _ _ _ | EvDelete _ => false
  | _ => true
  end.

Definition is_save (ev : Event) : bool :=
  match ev with
  | EvSave _ _ _ => true
  | _ => false
  end.

(** Events of [scrapeKeywords] itself: the attempts and the deletions. *)
Definition orchestrator_event (ev : Event) : bool :=
  match ev with
  | EvTry _ | EvDelete _ => true
  | _ => false
  end.

Definition Browser (ev : Event) : Prop := browser_event ev = true.
Definition Attempt (ev : Event) : Prop := orchestrator_event ev = false.

Definition Any (ev : Event) : Prop := True.
Definition NoSave (ev : Event) : Prop := is_save ev = false.

(** The calls of [saveCookies] in a history. *)
Definition save_calls (h : list Event) : list Event := List.filter is_save h.

(** The calls of [scrapeKeywords] itself in a history. *)
Definition orchestrator_view (h : list Event) : list Event :=
  List.filter orchestrator_event h.

(** [lo <= n <= hi], as the comparison of line 445 decides it. *)
Definition within (lo : Z) (hi : Max) (n : Z) : Prop :=
  lo <= n /\ match hi with Num k => n <= k | Infinity => True end.

(** Whether the wait for the redirect of line 102 ended in time. *)
Definition redirected (p : LoginPage) : bool :=
  match lp_wait_redirect p with
  | Ok _ => true
  | Throw _ => false
  end.

(** The world after the calls of lines 78-114, submission included. *)
Definition submitted (p : LoginPage) (acct : Account) (w : World) : World :=
  after w (fs w)
    ((if negb (Js.includes (lp_url_before p) "/user/login")
      then [EvGoto (Some (Js.Own login_url))] else [])
     ++ [EvFill "input#email" (email acct); EvFill "input#password" (password acct);
         EvClick sel_submit; EvWaitForURL "/user/login"; EvTextContent "body"])%list.

(** The world in which the credential submission starts: after the probe
    of the login link and, when the link did not show, that of the user
    menu. *)
Definition probed (p : LoginPage) (w : World) : World :=
  after w (fs w)
    (EvIsVisible sel_login_link
     :: if catch_default false (lp_login_link_visible p) then []
        else [EvIsVisible sel_user_menu])%list.

Definition valid_platform (options : Options) : Prop :=
  is_Some (Js.member PLATFORM_URLS (default "google" (opt_platform options))).

(** The world in which the loop starts: the sorted copy is on the heap. *)
Definition loop_start (w : World) (configured : list Account) : World :=
  set_heap (heap w ++ [Js.sort (cookie_priority (fs w)) configured]) w.

(** What the loop logs for an account whose attempt failed. *)
Definition failed_view (a : Account) : list Event :=
  [EvTry (email a); EvDelete (cookieFile a)].

Definition error_entry (reason : nat -> string) (i j : nat) (a : Account) : AttemptError :=
  {| failed_account := email a; failed_error := reason (i + j)%nat |}.

(** The names of the accounts whose attempt a history starts. *)
Definition attempted (h : list Event) : list string :=
  omap (fun ev => match ev with EvTry e => Some e | _ => None end) h.

(** Relative to the calls of [saveCookies] made so far, [out] made none,
    or it is a login that returned [true] and handed the cookies and the
    user agent read from the browser to [saveCookies], once. *)
Definition saved_by_login (p : LoginPage) (acct : Account) (before : list Event)
    (out : res bool * World) : Prop :=
  save_calls (history out.2) = before
  \/ (out.1 = Ok true
      /\ exists cookies ua,
           lp_cookies p = Ok cookies /\ lp_user_agent p = Ok ua
           /\ save_calls (history out.2)
              = (before ++ [EvSave (cookieFile acct) cookies ua])%list).


(** ** Vocabulary of the further properties *)

(** A string that does not begin with white space. *)
Definition starts_clean (s : string) : Prop :=
  match s with
  | String c _ => Js.is_white c = false
  | EmptyString => True
  end.

(** The volume text with the commas and the white space removed (line 260). *)
Definition clean_volume (volumeText : string) : string :=
  Js.remove_chars Js.is_white (Js.remove_chars is_comma volumeText).

(** Events made inside a browser session: the calls of the page and of
    the context, and the saving of cookies. *)
Definition session_event (ev : Event) : bool :=
  match ev with
  | EvTry _ | EvDelete _ | EvLaunch | EvClose => false
  | _ => true
  end.

Definition InSession (ev : Event) : Prop := session_event ev = true.

(** The scenario [sc] with another login page. *)
Definition with_login (login : LoginPage) (sc : Scenario) : Scenario :=
  {| sc_random_user_agent := sc_random_user_agent sc;
     sc_launch := sc_launch sc;
     sc_new_context := sc_new_context sc;
     sc_new_page := sc_new_page sc;
     sc_init_script := sc_init_script sc;
     sc_goto_platform := sc_goto_platform sc;
     sc_login := login;
     sc_url_after_login := sc_url_after_login sc;
     sc_goto_again := sc_goto_again sc;
     sc_language := sc_language sc;
     sc_input_click := sc_input_click sc;
     sc_input_clear := sc_input_clear sc;
     sc_input_fill := sc_input_fill sc;
     sc_search_click := sc_search_click sc;
     sc_wait_results := sc_wait_results sc;
     sc_tab_click := sc_tab_click sc;
     sc_stats := sc_stats sc;
     sc_table := sc_table sc;
     sc_cookies := sc_cookies sc;
     sc_user_agent := sc_user_agent sc;
     sc_close := sc_close sc |}.

(** Two computations that end with the same result, in whatever worlds
    they run. *)
Definition same_result {A} (m1 m2 : M A) : Prop :=
  forall w1 w2, (m1 w1).1 = (m2 w2).1.



(** [steady Q m]: the file system after [m] is [Q]-related to the one
    before it. *)
Definition steady {A} (Q : Fs -> Fs -> Prop) (m : M A) : Prop :=
  forall w, Q (fs w) (fs (m w).2).



(** * Properties *)

(** ** How a computation behaves: its result, what it appends to the
    history, and the heap it leaves alone *)

Lemma after_id w : after w (fs w) [] = w.
Proof. destruct w; unfold after; simpl. by rewrite app_nil_r. Qed.

Lemma after_after w f evs f' evs' :
  after (after w f evs) f' evs' = after w f' (evs ++ evs').
Proof. unfold after; simpl. by rewrite app_assoc. Qed.

Section Behaviour.
Context {A B : Type} (P : Event -> Prop).

Lemma behaves_ret (a : A) : behaves P (ret a) (Ok a).
Proof. intros w. exists [], (fs w). by rewrite after_id. Qed.

Lemma behaves_throw (e : string) : behaves P (@throw A e) (Throw e).
Proof. intros w. exists [], (fs w). by rewrite after_id. Qed.

Lemma behaves_call ev (r : res A) : P ev -> behaves P (call ev r) r.
Proof. intros H w. exists [ev], (fs w). split; [done | by constructor]. Qed.

Lemma behaves_bind_ok (m : M A) (f : A -> M B) a r :
  behaves P m (Ok a) -> behaves P (f a) r -> behaves P (bind m f) r.
Proof.
  intros Hm Hf w. destruct (Hm w) as (evs & f1 & E & HP).
  destruct (Hf (after w f1 evs)) as (evs' & f2 & E' & HP').
  exists (evs ++ evs')%list, f2. unfold bind. rewrite E, E', after_after.
  split; [done | by apply Forall_app].
Qed.

Lemma behaves_bind_throw (m : M A) (f : A -> M B) e :
  behaves P m (Throw e) -> behaves P (bind m f) (Throw e).
Proof.
  intros Hm w. destruct (Hm w) as (evs & f1 & E & HP).
  exists evs, f1. unfold bind. by rewrite E.
Qed.

Lemma behaves_catch_ok (m : M A) h a :
  behaves P m (Ok a) -> behaves P (try_catch m h) (Ok a).
Proof.
  intros Hm w. destruct (Hm w) as (evs & f1 & E & HP).
  exists evs, f1. unfold try_catch. by rewrite E.
Qed.

Lemma behaves_catch_throw (m : M A) h e r :
  behaves P m (Throw e) -> behaves P (h e) r -> behaves P (try_catch m h) r.
Proof.
  intros Hm Hh w. destruct (Hm w) as (evs & f1 & E & HP).
  destruct (Hh (after w f1 evs)) as (evs' & f2 & E' & HP').
  exists (evs ++ evs')%list, f2. unfold try_catch. rewrite E, E', after_after.
  split; [done | by apply Forall_app].
Qed.

Lemma behaves_finally (m : M A) (f : M unit) r rf :
  behaves P m r -> behaves P f rf ->
  behaves P (try_finally m f)
    (match rf with Ok _ => r | Throw e => Throw e end).
Proof.
  intros Hm Hf w. destruct (Hm w) as (evs & f1 & E & HP).
  destruct (Hf (after w f1 evs)) as (evs' & f2 & E' & HP').
  exists (evs ++ evs')%list, f2. unfold try_finally. rewrite E, E', after_after.
  split; [by destruct rf | by apply Forall_app].
Qed.

Lemma tame_ret (a : A) : tame P (ret a).
Proof. eexists. apply behaves_ret. Qed.

Lemma tame_throw (e : string) : tame P (@throw A e).
Proof. eexists. apply behaves_throw. Qed.

Lemma tame_call ev (r : res A) : P ev -> tame P (call ev r).
Proof. intros. eexists. by apply behaves_call. Qed.

Lemma tame_bind (m : M A) (f : A -> M B) :
  tame P m -> (forall a, tame P (f a)) -> tame P (bind m f).
Proof.
  intros [[a | e] Hm] Hf.
  - destruct (Hf a) as [r Hr]. exists r. by eapply behaves_bind_ok.
  - exists (Throw e). by apply behaves_bind_throw.
Qed.

Lemma tame_catch (m : M A) h :
  tame P m -> (forall e, tame P (h e)) -> tame P (try_catch m h).
Proof.
  intros [[a | e] Hm] Hh.
  - exists (Ok a). by apply behaves_catch_ok.
  - destruct (Hh e) as [r Hr]. exists r. by eapply behaves_catch_throw.
Qed.

Lemma tame_finally (m : M A) (f : M unit) :
  tame P m -> tame P f -> tame P (try_finally m f).
Proof. intros [r Hm] [rf Hf]. eexists. by eapply behaves_finally. Qed.

Lemma tame_catching (d : A) (m : M A) : tame P m -> tame P (catching d m).
Proof. intros. apply tame_catch; [done | intros; apply tame_ret]. Qed.

(** A reader in front of a call whose answer does not depend on what was
    read, followed by a continuation that does not either. *)
Lemma tame_reader_call {C} (m : M C) (ev : C -> Event) (x : res A) (k : M B) :
  reader m -> (forall c, P (ev c)) -> tame P k ->
  tame P (bind m (fun c => bind (call (ev c) x) (fun _ => k))).
Proof.
  intros Hm Hev [r Hk].
  exists (match x with Ok _ => r | Throw e => Throw e end).
  intros w. destruct (Hm w) as [c Ec]. unfold bind at 1. rewrite Ec.
  destruct x as [a | e].
  - apply (behaves_bind_ok (call (ev c) (Ok a)) (fun _ => k) a);
      [by apply behaves_call | done].
  - apply behaves_bind_throw. by apply behaves_call.
Qed.

End Behaviour.

(** What [behaves] gives about one run. *)
Lemma behaves_run {A} P (m : M A) r w :
  behaves P m r ->
  (m w).1 = r /\ heap (m w).2 = heap w /\
  exists evs : list Event, history (m w).2 = (history w ++ evs)%list /\ Forall P evs.
Proof.
  intros H. destruct (H w) as (evs & f & E & HP). rewrite E. simpl. eauto.
Qed.

Lemma tame_result_indep {A} P (m : M A) w w0 : tame P m -> (m w).1 = (m w0).1.
Proof.
  intros [r H]. destruct (behaves_run P m r w H) as [-> _].
  by destruct (behaves_run P m r w0 H) as [-> _].
Qed.

Lemma tame_heap {A} P (m : M A) w : tame P m -> heap (m w).2 = heap w.
Proof. intros [r H]. by destruct (behaves_run P m r w H) as (_ & ? & _). Qed.

Lemma tame_history {A} P (m : M A) w :
  tame P m -> exists evs : list Event, history (m w).2 = (history w ++ evs)%list /\ Forall P evs.
Proof. intros [r H]. by destruct (behaves_run P m r w H) as (_ & _ & ?). Qed.

(** Decomposes a goal [tame P m] along the structure of [m]; the
    functions already dealt with are looked up in the hint database. *)
Create HintDb tame_db.

Ltac tame_step :=
  first
    [ solve [ auto 2 with tame_db nocore ]
    | apply tame_ret
    | apply tame_throw
    | apply tame_call; reflexivity
    | apply tame_catching
    | apply tame_bind; [ | intros ? ]
    | apply tame_catch; [ | intros ? ]
    | apply tame_finally
    | match goal with
      | |- tame _ (if ?b then _ else _) => destruct b
      | |- tame _ (match ?x with _ => _ end) => destruct x
      end ].
Ltac tame := repeat tame_step.

(** ** The session store *)

Lemma loadCookies_reader f : reader (loadCookies f).
Proof.
  intros w. unfold loadCookies, try_catch, bind, get_fs, lift, ret, throw.
  destruct (existsSync (fs w) f); [ | by eexists ].
  destruct (readFileSync (fs w) f); [ | by eexists ].
  destruct (JSON_parse a); by eexists.
Qed.

Lemma saveCookies_run f cookies ua w :
  saveCookies f cookies ua w =
    (Ok tt,
     after w (match writeFileSync (fs w) f (JSON_stringify (session_json cookies ua)) with
              | Ok f' => f'
              | Throw _ => fs w
              end) [EvSave f cookies ua]).
Proof.
  unfold saveCookies, try_catch, bind, mark, get_fs, lift, put_fs, ret. simpl.
  by destruct (writeFileSync _ _ _).
Qed.

Lemma deleteCookies_run f w :
  deleteCookies f w =
    (Ok tt,
     after w (if existsSync (fs w) f
              then match unlinkSync (fs w) f with
                   | Ok f' => f'
                   | Throw _ => fs w
                   end
              else fs w) [EvDelete f]).
Proof.
  unfold deleteCookies, try_catch, bind, mark, get_fs, lift, put_fs, ret. simpl.
  destruct (existsSync _ _); [ | done ]. by destruct (unlinkSync _ _).
Qed.

Lemma behaves_saveCookies (P : Event -> Prop) f cookies ua :
  P (EvSave f cookies ua) -> behaves P (saveCookies f cookies ua) (Ok tt).
Proof.
  intros HP w. rewrite saveCookies_run. do 2 eexists. split; [done | by constructor].
Qed.

Lemma tame_saveCookies (P : Event -> Prop) f cookies ua :
  P (EvSave f cookies ua) -> tame P (saveCookies f cookies ua).
Proof. intros. eexists. by apply behaves_saveCookies. Qed.

Lemma behaves_deleteCookies (P : Event -> Prop) f :
  P (EvDelete f) -> behaves P (deleteCookies f) (Ok tt).
Proof.
  intros HP w. rewrite deleteCookies_run. do 2 eexists. split; [done | by constructor].
Qed.

Lemma tame_deleteCookies (P : Event -> Prop) f :
  P (EvDelete f) -> tame P (deleteCookies f).
Proof. intros. eexists. by apply behaves_deleteCookies. Qed.

(** ** The browser-only parts *)

Lemma tame_weaken {A} (P Q : Event -> Prop) (m : M A) :
  (forall ev, P ev -> Q ev) -> tame P m -> tame Q m.
Proof.
  intros HPQ [r H]. exists r. intros w. destruct (H w) as (evs & f & E & HP).
  exists evs, f. split; [done | by eapply Forall_impl].
Qed.

Hint Extern 1 (tame _ (saveCookies _ _ _)) =>
  apply tame_saveCookies; reflexivity : tame_db.
Hint Extern 1 (tame _ (deleteCookies _)) =>
  apply tame_deleteCookies; reflexivity : tame_db.

Lemma tame_setLanguageIndonesian p : tame Browser (setLanguageIndonesian p).
Proof. unfold setLanguageIndonesian. tame. Qed.

Lemma tame_wait_for_table p n attempt : tame Browser (wait_for_table p n attempt).
Proof.
  revert attempt. induction n as [ | n IH]; intros attempt; simpl; tame.
Qed.

Hint Resolve tame_wait_for_table : tame_db.

Lemma tame_extractKeywords p : tame Browser (extractKeywords p).
Proof. unfold extractKeywords. tame. Qed.

(** A browser-only part is tame for every class of events that contains
    the browser events. *)
Ltac from_browser lem :=
  apply (tame_weaken Browser);
  [ let ev := fresh in intros ev; destruct ev; done | apply lem ].

Hint Extern 1 (tame _ (setLanguageIndonesian _)) =>
  from_browser tame_setLanguageIndonesian : tame_db.
Hint Extern 1 (tame _ (extractKeywords _)) =>
  from_browser tame_extractKeywords : tame_db.

Lemma tame_submit_credentials p account : tame Attempt (submit_credentials p account).
Proof. unfold submit_credentials. tame. Qed.

Hint Resolve tame_submit_credentials : tame_db.

Lemma tame_loginIfNeeded p account : tame Attempt (loginIfNeeded p account).
Proof. unfold loginIfNeeded. tame. Qed.

Hint Resolve tame_loginIfNeeded : tame_db.

(** ** One account *)

Lemma tame_mark P ev : P ev -> tame P (mark ev).
Proof.
  intros HP. exists (Ok tt). intros w. exists [ev], (fs w).
  split; [done | by constructor].
Qed.

Lemma tame_attempt_rest account keyword options sc :
  tame Attempt (attempt_body account keyword options sc).
Proof.
  unfold attempt_body. cbv zeta.
  apply (tame_reader_call Attempt (loadCookies (cookieFile account))
           (fun savedData => EvNewContext _ _));
    [ apply loadCookies_reader | done | tame ].
Qed.

Hint Resolve tame_attempt_rest : tame_db.

Lemma tame_tryWithAccount account keyword options sc :
  tame Attempt (tryWithAccount account keyword options sc).
Proof. unfold tryWithAccount. tame. Qed.

Hint Resolve tame_tryWithAccount : tame_db.

(** The result of an attempt is the same in every world. *)
Lemma attempt_result_everywhere acct keyword options sc w r :
  (tryWithAccount acct keyword options sc w).1 = r ->
  forall w0, (tryWithAccount acct keyword options sc w0).1 = r.
Proof.
  intros <- w0. apply (tame_result_indep Attempt), tame_tryWithAccount.
Qed.

Lemma tame_scrape_loop keyword options scs accounts i errors :
  tame Any (scrape_loop keyword options scs accounts i errors).
Proof.
  revert i errors. induction accounts as [ | account rest IH]; intros i errors; simpl.
  - apply tame_throw.
  - apply tame_catch.
    + apply tame_bind; [ by apply tame_mark | intros _ ].
      by apply (tame_weaken Attempt); [ | apply tame_tryWithAccount ].
    + intros err. apply tame_bind; [ by apply tame_deleteCookies | intros _; apply IH ].
Qed.

(** *** Inversion of successful runs *)

Lemma bind_inv_ok {A B} (m : M A) (f : A -> M B) w b w' :
  bind m f w = (Ok b, w') -> exists a w1, m w = (Ok a, w1) /\ f a w1 = (Ok b, w').
Proof.
  unfold bind. destruct (m w) as [[a | e] w1]; [ eauto | discriminate ].
Qed.

Lemma save_calls_app h1 h2 : save_calls (h1 ++ h2) = (save_calls h1 ++ save_calls h2)%list.
Proof. apply List.filter_app. Qed.

Lemma save_calls_quiet evs : Forall NoSave evs -> save_calls evs = [].
Proof.
  induction 1 as [ | ev evs Hev _ IH]; [ done | ].
  unfold save_calls in *. simpl. by rewrite Hev.
Qed.

Lemma quiet_run {A} (m : M A) w r w1 :
  tame NoSave m -> m w = (r, w1) -> save_calls (history w1) = save_calls (history w).
Proof.
  intros Hm E. destruct (tame_history NoSave m w Hm) as (evs & Hh & Hq).
  rewrite E in Hh. simpl in Hh.
  by rewrite Hh, save_calls_app, (save_calls_quiet _ Hq), app_nil_r.
Qed.

(** The login of lines 348-353 never fails the attempt: whatever
    [loginIfNeeded] does, the attempt goes on from the world it left. *)
Lemma login_or_guest_run p account w :
  try_catch (bind (loginIfNeeded p account) (fun _ => ret tt)) (fun loginErr => ret tt) w
  = (Ok tt, (loginIfNeeded p account w).2).
Proof.
  unfold try_catch, bind, ret. by destruct (loginIfNeeded p account w) as [[b | e] w1].
Qed.

(** One step of a successful run whose first part saves nothing. *)
Ltac quiet_step H :=
  let a := fresh "a" in
  let w1 := fresh "w" in
  let E := fresh "E" in
  apply bind_inv_ok in H as (a & w1 & E & H);
  apply quiet_run in E; [ | solve [ tame ] ].

(** What a successful run of the body of an attempt looks like: the
    result is built from the extracted records, nothing is saved before
    the login, and after the login cookies are saved exactly when some
    extracted record carries data. *)
Lemma attempt_body_ok acct keyword options sc w r w' :
  attempt_body acct keyword options sc w = (Ok r, w') ->
  exists allKeywords w1,
    (forall w0, (extractKeywords (sc_table sc) w0).1 = Ok allKeywords)
    /\ keywords r =
         List.filter (in_volume_range (default 0 (opt_minVolume options))
                        (default Infinity (opt_maxVolume options))) allKeywords
    /\ filteredCount r = length (keywords r)
    /\ totalKeywordsFound r = length allKeywords
    /\ account r = email acct
    /\ save_calls (history w1) = save_calls (history w)
    /\ (if existsb isDataAvailable allKeywords
        then exists cookies ua,
               sc_cookies sc = Ok cookies /\ sc_user_agent sc = Ok ua
               /\ save_calls (history w') =
                    (save_calls (history (loginIfNeeded (sc_login sc) acct w1).2)
                       ++ [EvSave (cookieFile acct) cookies ua])%list
        else save_calls (history w') =
               save_calls (history (loginIfNeeded (sc_login sc) acct w1).2)).
Proof.
  unfold attempt_body. cbv zeta. intros H.
  apply bind_inv_ok in H as (savedData & w0 & E0 & H).
  destruct (loadCookies_reader (cookieFile acct) w) as [sd Esd].
  rewrite Esd in E0. injection E0 as <- <-.
  do 4 quiet_step H.
  apply bind_inv_ok in H as ([] & wl & El & H).
  rewrite login_or_guest_run in El. injection El as El.
  do 8 quiet_step H.
  apply bind_inv_ok in H as (stats & ws & Es & H).
  apply quiet_run in Es; [ | solve [ tame ] ].
  apply bind_inv_ok in H as (allKeywords & wx & Ex & H).
  pose proof Ex as Hx. apply quiet_run in Hx; [ | solve [ tame ] ].
  apply bind_inv_ok in H as ([] & wp & Ep & H).
  unfold ret in H. injection H as <- <-.
  exists allKeywords, w3. simpl.
  split; [ | split; [ done | split; [ done | split; [ done | split; [ done | split ] ] ] ] ].
  - intros w00. rewrite (tame_result_indep Browser _ w00 ws) by apply tame_extractKeywords.
    by rewrite Ex.
  - congruence.
  - assert (Hchain : save_calls (history wx) = save_calls (history wl)) by congruence.
    rewrite El.
    destruct allKeywords as [ | kw kws] eqn:Ekws.
    + simpl in Ep |- *. unfold ret in Ep. injection Ep as <-. congruence.
    + rewrite <- Ekws in *.
      assert (Hlen : (0 <? length allKeywords)%nat = true) by (by subst).
      rewrite Hlen in Ep.
      destruct (existsb isDataAvailable allKeywords); simpl in Ep.
      * apply bind_inv_ok in Ep as (cookies & wc & Ec & Ep).
        apply bind_inv_ok in Ep as (ua & wu & Eu & Ep).
        unfold call in Ec, Eu. injection Ec as Ec <-. injection Eu as Eu <-.
        exists cookies, ua. rewrite saveCookies_run in Ep. injection Ep as <-.
        split; [ done | split; [ done | ] ].
        unfold after, record. simpl.
        rewrite !save_calls_app. simpl. rewrite !app_nil_r. by rewrite Hchain.
      * unfold ret in Ep. injection Ep as <-. done.
Qed.

Lemma tryWithAccount_ok acct keyword options sc w r w' :
  tryWithAccount acct keyword options sc w = (Ok r, w') ->
  exists wb,
    attempt_body acct keyword options sc (record EvLaunch w) = (Ok r, wb)
    /\ w' = record EvClose wb.
Proof.
  unfold tryWithAccount. intros H.
  apply bind_inv_ok in H as ([] & w1 & E & H).
  unfold call in E. injection E as _ <-.
  unfold try_finally in H.
  destruct (attempt_body acct keyword options sc (record EvLaunch w)) as [rb wb].
  unfold call in H. destruct (sc_close sc) as [[] | e]; [ | discriminate ].
  injection H as -> <-. by exists wb.
Qed.

(** ** The volume filter *)

Lemma in_volume_range_within lo hi kw :
  in_volume_range lo hi kw = true <-> within lo hi (searchVolume kw).
Proof.
  unfold in_volume_range, within, le_max. rewrite andb_true_iff, Z.leb_le.
  destruct hi; [ rewrite Z.leb_le | ]; intuition.
Qed.

(** C3.  Whatever [tryWithAccount] returns for the bounds [minVolume] and
    [maxVolume]: [keywords] is the list of extracted records filtered by
    the bounds, in the order of extraction; [filteredCount] is its length;
    every record of [keywords] lies within the bounds; and every extracted
    record within the bounds is in [keywords]. *)
Theorem filter_reflected_in_result acct keyword options sc w r w' :
  tryWithAccount acct keyword options sc w = (Ok r, w') ->
  let lo := default 0 (opt_minVolume options) in
  let hi := default Infinity (opt_maxVolume options) in
  exists allKeywords,
    (forall w0, (extractKeywords (sc_table sc) w0).1 = Ok allKeywords)
    /\ keywords r = List.filter (in_volume_range lo hi) allKeywords
    /\ filteredCount r = length (keywords r)
    /\ Forall (fun kw => within lo hi (searchVolume kw)) (keywords r)
    /\ (forall kw, In kw allKeywords -> within lo hi (searchVolume kw) -> In kw (keywords r))
    /\ (forall kw, In kw (keywords r) -> In kw allKeywords).
Proof.
  intros H lo hi.
  apply tryWithAccount_ok in H as (wb & H & _).
  apply attempt_body_ok in H as (allKeywords & w1 & Hx & Hk & Hc & _).
  exists allKeywords. fold lo hi in Hk.
  split; [ done | split; [ done | split; [ done | ] ] ].
  rewrite Hk. split; [ | split ].
  - apply List.Forall_forall. intros kw Hin.
    apply List.filter_In in Hin as [_ Hin]. by apply in_volume_range_within.
  - intros kw Hin Hw. apply List.filter_In. split; [ done | ].
    by apply in_volume_range_within.
  - intros kw Hin. by apply List.filter_In in Hin as [Hin _].
Qed.

(** ** Extraction *)

Lemma row_record_inv row kw :
  row_record row = Some kw ->
  exists volCell,
    cells row !! 2%nat = Some volCell
    /\ isDataAvailable kw = negb (is_blurred volCell)
    /\ searchVolumeFormatted kw =
         (if is_blurred volCell then "-" else Js.trim (textContent volCell))
    /\ searchVolume kw = parse_volume (searchVolumeFormatted kw).
Proof.
  unfold row_record. intros H.
  destruct (has_colspan_cell row); [ discriminate | ].
  destruct (length (cells row) <? 3)%nat; [ discriminate | ].
  destruct (cells row !! 2%nat) as [volCell | ]; [ | discriminate ].
  destruct (nonempty _); [ | discriminate ].
  injection H as <-. simpl. by exists volCell.
Qed.

Lemma extractKeywords_inv p w kws :
  (extractKeywords p w).1 = Ok kws ->
  kws = [] \/ exists rows, tb_rows p = Ok rows /\ kws = extract_rows rows.
Proof.
  unfold extractKeywords, bind. intros H.
  destruct (wait_for_table p 3 0 w) as [[[] | e] w1]; simpl in H.
  - unfold call in H. simpl in H. destruct (tb_rows p) as [rows | e]; [ | discriminate ].
    simpl in H. injection H as <-. right. by exists rows.
  - injection H as <-. by left.
  - discriminate.
Qed.

(** C4.  Every record that [extractKeywords] returns comes from a row of
    the table whose third cell decides [isDataAvailable]; when that cell
    carries a blur marker (class, markup or descendant) the record has
    volume 0 and the placeholder ["-"] as its display string, whatever the
    text of the cell.  So [isDataAvailable = false] implies
    [searchVolume = 0]. *)
Theorem blurred_volume_is_zero p w kws kw :
  (extractKeywords p w).1 = Ok kws ->
  In kw kws ->
  (exists rows row volCell,
      tb_rows p = Ok rows /\ In row rows /\ row_record row = Some kw
      /\ cells row !! 2%nat = Some volCell
      /\ isDataAvailable kw = negb (is_blurred volCell)
      /\ (is_blurred volCell = true ->
          searchVolume kw = 0 /\ searchVolumeFormatted kw = "-"))
  /\ (isDataAvailable kw = false ->
      searchVolume kw = 0 /\ searchVolumeFormatted kw = "-").
Proof.
  intros H Hin.
  apply extractKeywords_inv in H as [-> | (rows & Hrows & ->)]; [ by destruct Hin | ].
  apply list_elem_of_In in Hin. unfold extract_rows in Hin.
  apply list_elem_of_omap in Hin as (row & Hrow & Hrec).
  apply list_elem_of_In in Hrow.
  destruct (row_record_inv row kw Hrec) as (volCell & Hc & Ha & Hf & Hv).
  assert (Hb : is_blurred volCell = true ->
               searchVolume kw = 0 /\ searchVolumeFormatted kw = "-").
  { intros Eb. rewrite Eb in Hf. rewrite Hv, Hf. done. }
  split.
  - exists rows, row, volCell. done.
  - intros Hna. apply Hb. rewrite Hna in Ha. by destruct (is_blurred volCell).
Qed.

(** ** Login *)

(** C5.  When the login link is not visible, [loginIfNeeded] probes the
    user menu and nothing else: if the menu is visible it returns [true]
    having made the two visibility probes only (no navigation, no filled
    field, no click, no saved cookie); if it is not, the absence of the
    login link is not enough and the credential submission runs. *)
Theorem session_reuse_skips_credentials p acct w :
  catch_default false (lp_login_link_visible p) = false ->
  loginIfNeeded p acct w =
    let w2 := after w (fs w) [EvIsVisible sel_login_link; EvIsVisible sel_user_menu] in
    if catch_default false (lp_user_menu_visible p) then (Ok true, w2)
    else submit_credentials p acct w2.
Proof.
  intros Hlink. unfold loginIfNeeded, catching, try_catch, bind, call, ret.
  destruct (lp_login_link_visible p) as [b | e]; simpl in Hlink |- *.
  - subst b. simpl. destruct (lp_user_menu_visible p) as [[] | e]; simpl;
      unfold after, record; simpl; by rewrite <- ?app_assoc.
  - destruct (lp_user_menu_visible p) as [[] | e']; simpl;
      unfold after, record; simpl; by rewrite <- ?app_assoc.
Qed.

Lemma loginIfNeeded_submits p acct w :
  (catch_default false (lp_login_link_visible p) = true
   \/ catch_default false (lp_user_menu_visible p) = false) ->
  loginIfNeeded p acct w = submit_credentials p acct (probed p w).
Proof.
  intros H. unfold loginIfNeeded, probed, catching, try_catch, bind, call, ret.
  destruct (lp_login_link_visible p) as [[] | e]; simpl in H |- *;
    try (destruct H as [H | H]; [ discriminate | ]);
    try (destruct (lp_user_menu_visible p) as [[] | e']; simpl in H |- *;
         try discriminate);
    unfold after, record; simpl; by rewrite <- ?app_assoc.
Qed.

Lemma submit_credentials_outcome p acct w :
  (Js.includes (lp_url_before p) "/user/login" = true \/ lp_goto_login p = Ok tt) ->
  lp_fill_email p = Ok tt ->
  lp_fill_password p = Ok tt ->
  lp_click_submit p = Ok tt ->
  let currentUrl := lp_url_after p in
  let bodyLower := Js.toLowerCase (catch_default "" (lp_body_text p)) in
  let ws := submitted p acct w in
  submit_credentials p acct w =
    if challenge_signal currentUrl bodyLower then
      (Throw (msg_challenged acct), ws)
    else if negb (redirected p) || Js.includes currentUrl "/user/login" then
      (Throw (msg_rejected acct (catch_default "" (lp_error_text p))),
       record (EvTextContent sel_alert) ws)
    else
      match lp_cookies p with
      | Throw e => (Throw e, record EvCookies ws)
      | Ok cookies =>
          match lp_user_agent p with
          | Throw e => (Throw e, record (EvEvaluate "navigator.userAgent") (record EvCookies ws))
          | Ok ua =>
              (Ok true,
               (saveCookies (cookieFile acct) cookies ua
                  (record (EvEvaluate "navigator.userAgent") (record EvCookies ws))).2)
          end
      end.
Proof.
  intros Hgoto Hfe Hfp Hcs currentUrl bodyLower ws.
  subst currentUrl bodyLower ws.
  unfold submit_credentials, submitted, redirected, catching, try_catch, bind, call, ret, throw.
  rewrite Hfe, Hfp, Hcs.
  destruct (negb (Js.includes (lp_url_before p) "/user/login")) eqn:Eg.
  - destruct Hgoto as [Hg | ->]; [ by rewrite Hg in Eg | ]. simpl.
    destruct (lp_wait_redirect p), (lp_body_text p); simpl;
      destruct (challenge_signal _ _); simpl;
      try destruct (Js.includes (lp_url_after p) "/user/login"); simpl;
      try destruct (lp_error_text p); simpl;
      try destruct (lp_cookies p); simpl;
      try destruct (lp_user_agent p); simpl;
      rewrite ?saveCookies_run; unfold after, record; simpl;
      rewrite <- ?app_assoc; reflexivity.
  - simpl.
    destruct (lp_wait_redirect p), (lp_body_text p); simpl;
      destruct (challenge_signal _ _); simpl;
      try destruct (Js.includes (lp_url_after p) "/user/login"); simpl;
      try destruct (lp_error_text p); simpl;
      try destruct (lp_cookies p); simpl;
      try destruct (lp_user_agent p); simpl;
      rewrite ?saveCookies_run; unfold after, record; simpl;
      rewrite <- ?app_assoc; reflexivity.
Qed.

(** C6.  When [loginIfNeeded] has submitted the credentials, the outcome is
    decided in this order: a challenge signal in the URL or in the
    lower-cased body text throws the challenge error; otherwise no redirect,
    or a URL still on the login page, throws the rejection error, with the
    trimmed inline error text when there is one; otherwise the login
    succeeded: the cookies and the user agent are read from the browser
    and handed to [saveCookies] for the account's cookie file, and the
    answer is [true] (an error of one of the two reads is thrown as it is,
    before anything is saved).  Only the last case calls [saveCookies]. *)
Theorem login_outcome_priority p acct w :
  (catch_default false (lp_login_link_visible p) = true
   \/ catch_default false (lp_user_menu_visible p) = false) ->
  (Js.includes (lp_url_before p) "/user/login" = true \/ lp_goto_login p = Ok tt) ->
  lp_fill_email p = Ok tt ->
  lp_fill_password p = Ok tt ->
  lp_click_submit p = Ok tt ->
  let currentUrl := lp_url_after p in
  let bodyLower := Js.toLowerCase (catch_default "" (lp_body_text p)) in
  let ws := submitted p acct (probed p w) in
  loginIfNeeded p acct w =
    if challenge_signal currentUrl bodyLower then
      (Throw (msg_challenged acct), ws)
    else if negb (redirected p) || Js.includes currentUrl "/user/login" then
      (Throw (msg_rejected acct (catch_default "" (lp_error_text p))),
       record (EvTextContent sel_alert) ws)
    else
      match lp_cookies p with
      | Throw e => (Throw e, record EvCookies ws)
      | Ok cookies =>
          match lp_user_agent p with
          | Throw e => (Throw e, record (EvEvaluate "navigator.userAgent") (record EvCookies ws))
          | Ok ua =>
              (Ok true,
               (saveCookies (cookieFile acct) cookies ua
                  (record (EvEvaluate "navigator.userAgent") (record EvCookies ws))).2)
          end
      end.
Proof.
  intros Hsubmit Hgoto Hfe Hfp Hcs. cbv zeta.
  rewrite (loginIfNeeded_submits p acct w Hsubmit).
  by apply submit_credentials_outcome.
Qed.

(** ** The session store, continued *)

Lemma loadCookies_run f w :
  loadCookies f w =
    (Ok (if existsSync (fs w) f
         then match readFileSync (fs w) f with
              | Ok data => default JNull (JSON_parse data)
              | Throw _ => JNull
              end
         else JNull), w).
Proof.
  unfold loadCookies, try_catch, bind, get_fs, lift, ret, throw.
  destruct (existsSync (fs w) f); [ | done ].
  destruct (readFileSync (fs w) f) as [data | e]; [ | done ].
  by destruct (JSON_parse data).
Qed.

Lemma existsSync_true f p : existsSync f p = true <-> is_Some (files f !! p).
Proof. unfold existsSync. apply bool_decide_eq_true. Qed.

Lemma existsSync_false f p : existsSync f p = false <-> files f !! p = None.
Proof.
  unfold existsSync. rewrite bool_decide_eq_false, eq_None_not_Some. done.
Qed.

(** C9.  On a path that can be written and read, with a record that the
    JSON built-ins carry through unchanged: loading after saving gives
    the saved cookies and user agent; loading after deleting gives
    [null]; and [loadCookies] never throws nor changes the world, giving
    [null] when the file is missing, cannot be read, or does not parse. *)
Theorem session_store_round_trip f cookies ua w :
  f ∉ unwritable (fs w) ->
  f ∉ unreadable (fs w) ->
  JSON_parse (JSON_stringify (session_json cookies ua)) = Some (session_json cookies ua) ->
  let saved := (saveCookies f cookies ua w).2 in
  let deleted := (deleteCookies f saved).2 in
  (loadCookies f saved).1 = Ok (session_json cookies ua)
  /\ json_get "cookies" (session_json cookies ua) = Some (JArr cookies)
  /\ json_get "userAgent" (session_json cookies ua) = Some (JStr ua)
  /\ (loadCookies f deleted).1 = Ok JNull
  /\ (loadCookies f (deleteCookies f w).2).1 = Ok JNull
  /\ (forall w0, exists v, loadCookies f w0 = (Ok v, w0))
  /\ (forall w0, files (fs w0) !! f = None -> (loadCookies f w0).1 = Ok JNull)
  /\ (forall w0, f ∈ unreadable (fs w0) -> (loadCookies f w0).1 = Ok JNull)
  /\ (forall w0 data,
        files (fs w0) !! f = Some data -> JSON_parse data = None ->
        (loadCookies f w0).1 = Ok JNull).
Proof.
  intros Hw Hr Hjson saved deleted. subst saved deleted.
  assert (Hdel : forall w0, f ∉ unwritable (fs w0) ->
                 (loadCookies f (deleteCookies f w0).2).1 = Ok JNull).
  { intros w0 Hw0. rewrite deleteCookies_run, loadCookies_run. simpl.
    destruct (existsSync (fs w0) f) eqn:Ex.
    - unfold unlinkSync. rewrite bool_decide_eq_false_2 by done.
      apply existsSync_true in Ex as [data Ex]. rewrite Ex.
      replace (existsSync _ f) with false; [ done | ].
      symmetry. apply existsSync_false. simpl. apply lookup_delete_eq.
    - by rewrite Ex. }
  repeat split.
  - rewrite saveCookies_run, loadCookies_run. simpl.
    unfold writeFileSync. rewrite bool_decide_eq_false_2 by done.
    replace (existsSync _ f) with true.
    + unfold readFileSync. simpl. rewrite bool_decide_eq_false_2 by done.
      by rewrite lookup_insert_eq, Hjson.
    + symmetry. apply existsSync_true. simpl. rewrite lookup_insert_eq. by eexists.
  - apply Hdel. rewrite saveCookies_run. simpl.
    unfold writeFileSync. by rewrite bool_decide_eq_false_2 by done.
  - by apply Hdel.
  - intros w0. rewrite loadCookies_run. by eexists.
  - intros w0 Hnone. rewrite loadCookies_run. simpl.
    by rewrite (proj2 (existsSync_false _ _) Hnone).
  - intros w0 Hin. rewrite loadCookies_run. simpl.
    unfold readFileSync. rewrite bool_decide_eq_true_2 by done.
    by destruct (existsSync _ _).
  - intros w0 data Hsome Hbad. rewrite loadCookies_run. simpl.
    unfold readFileSync. rewrite Hsome.
    destruct (existsSync _ _); [ | done ].
    case_bool_decide; simpl; by rewrite ?Hbad.
Qed.

(** ** All accounts *)

(** C10.  [scrapeKeywords] leaves the array [config.keywordToolAccounts]
    as it was: the sort works on the copy made by the spread. *)
Theorem config_accounts_not_mutated keyword options scs w :
  heap (scrapeKeywords keyword options scs w).2 !! config_keywordToolAccounts
  = heap w !! config_keywordToolAccounts.
Proof.
  unfold scrapeKeywords.
  destruct (Js.member PLATFORM_URLS _) as [platformUrl | ]; [ | done ].
  unfold bind at 1. unfold array_spread.
  destruct (heap w !! config_keywordToolAccounts) as [configured | ] eqn:Hcfg;
    [ | simpl; by rewrite ?Hcfg ].
  assert (Hlt : (config_keywordToolAccounts < length (heap w))%nat)
    by (apply lookup_lt_is_Some; by eexists).
  unfold bind at 1. unfold array_read at 1. simpl.
  rewrite lookup_app_r, Nat.sub_diag by done. simpl.
  destruct (length configured =? 0)%nat.
  { simpl. rewrite lookup_app_l by done. done. }
  unfold bind at 1. unfold get_fs at 1. simpl.
  unfold bind at 1. unfold array_sort at 1. simpl.
  rewrite lookup_app_r, Nat.sub_diag by done. simpl.
  unfold bind at 1. unfold array_read at 1. simpl.
  rewrite list_lookup_insert_eq by (rewrite length_app; simpl; lia).
  rewrite (tame_heap Any) by apply tame_scrape_loop. simpl.
  rewrite list_lookup_insert_ne by (unfold config_keywordToolAccounts in *; lia).
  by rewrite lookup_app_l.
Qed.

(** *** The order of the attempts *)

Lemma sort_insert_perm {A} (cmp : A -> A -> Z) x l : Js.sort_insert cmp x l ≡ₚ x :: l.
Proof.
  induction l as [ | y l IH]; simpl; [ done | ].
  destruct (cmp x y <=? 0); [ done | ]. rewrite IH. apply Permutation_swap.
Qed.

Lemma sort_perm {A} (cmp : A -> A -> Z) l : Js.sort cmp l ≡ₚ l.
Proof.
  induction l as [ | x l IH]; simpl; [ done | ].
  rewrite sort_insert_perm. by rewrite IH.
Qed.

Lemma sort_length {A} (cmp : A -> A -> Z) l : length (Js.sort cmp l) = length l.
Proof. apply Permutation_length, sort_perm. Qed.

(** With the comparison of lines 494-500 the sort puts the accounts whose
    cookie file exists first and keeps the configured order otherwise. *)
Lemma sort_cookie_priority f l :
  Js.sort (cookie_priority f) l
  = (List.filter (fun a => existsSync f (cookieFile a)) l
     ++ List.filter (fun a => negb (existsSync f (cookieFile a))) l)%list.
Proof.
  induction l as [ | x l IH]; simpl; [ done | ]. rewrite IH. clear IH.
  set (has := fun a => existsSync f (cookieFile a)).
  destruct (existsSync f (cookieFile x)) eqn:Ex; simpl.
  - assert (Hle : forall y, (cookie_priority f x y <=? 0) = true).
    { intros y. unfold cookie_priority. rewrite Ex.
      by destruct (existsSync f (cookieFile y)). }
    destruct (_ ++ _)%list as [ | y ys]; simpl; [ done | by rewrite Hle ].
  - assert (Hfront : forall ys zs,
              Forall (fun a => has a = true) ys ->
              Js.sort_insert (cookie_priority f) x (ys ++ zs)
              = (ys ++ Js.sort_insert (cookie_priority f) x zs)%list).
    { intros ys zs Hys. induction Hys as [ | y ys Hy _ IH]; simpl; [ done | ].
      unfold cookie_priority at 1. unfold has in Hy. rewrite Ex, Hy. simpl.
      by rewrite IH. }
    rewrite Hfront.
    + f_equal. destruct (List.filter _ l) as [ | z zs] eqn:Ez; simpl; [ done | ].
      assert (Hz : negb (has z) = true).
      { assert (Hin : In z (List.filter (fun a => negb (has a)) l))
          by (unfold has; rewrite Ez; by left).
        by apply List.filter_In in Hin as [_ Hin]. }
      unfold cookie_priority. unfold has in Hz. rewrite Ex.
      by destruct (existsSync f (cookieFile z)).
    + apply List.Forall_forall. intros y Hy. by apply List.filter_In in Hy as [_ Hy].
Qed.

(** *** From [scrapeKeywords] to its loop *)

Lemma scrapeKeywords_run keyword options scs w configured :
  valid_platform options ->
  heap w !! config_keywordToolAccounts = Some configured ->
  configured <> [] ->
  scrapeKeywords keyword options scs w
  = scrape_loop keyword options scs (Js.sort (cookie_priority (fs w)) configured) 0 []
      (loop_start w configured).
Proof.
  intros [url Hurl] Hcfg Hne. unfold scrapeKeywords. rewrite Hurl.
  unfold bind at 1. unfold array_spread. rewrite Hcfg.
  unfold bind at 1. unfold array_read at 1. simpl.
  rewrite lookup_app_r, Nat.sub_diag by done. simpl.
  destruct configured as [ | c cs]; [ done | ]. simpl length. simpl Nat.eqb. cbv iota.
  unfold bind at 1. unfold get_fs at 1. simpl.
  unfold bind at 1. unfold array_sort at 1. simpl.
  rewrite lookup_app_r, Nat.sub_diag by done. simpl.
  unfold bind at 1. unfold array_read at 1. simpl.
  rewrite list_lookup_insert_eq by (rewrite length_app; simpl; lia).
  unfold loop_start, set_heap. simpl. repeat f_equal.
  replace (length (heap w)) with (length (heap w) + 0)%nat at 1 by lia.
  by rewrite insert_app_r.
Qed.

Lemma scrapeKeywords_no_accounts keyword options scs w :
  valid_platform options ->
  heap w !! config_keywordToolAccounts = Some [] ->
  scrapeKeywords keyword options scs w
  = (Throw msg_no_accounts, set_heap (heap w ++ [[]]) w).
Proof.
  intros [url Hurl] Hcfg. unfold scrapeKeywords. rewrite Hurl.
  unfold bind at 1. unfold array_spread. rewrite Hcfg.
  unfold bind at 1. unfold array_read at 1. simpl.
  by rewrite lookup_app_r, Nat.sub_diag by done.
Qed.

(** *** The loop *)

Lemma orchestrator_view_app h1 h2 :
  orchestrator_view (h1 ++ h2) = (orchestrator_view h1 ++ orchestrator_view h2)%list.
Proof. apply List.filter_app. Qed.

Lemma orchestrator_view_attempt evs : Forall Attempt evs -> orchestrator_view evs = [].
Proof.
  induction 1 as [ | ev evs Hev _ IH]; [ done | ].
  unfold orchestrator_view in *. simpl. by rewrite Hev.
Qed.

(** One iteration: the attempt is logged and run; its result does not
    depend on the world, and it logs nothing of the loop's own. *)
Lemma attempt_step keyword options sc acct w :
  exists r f evs,
    (forall w0, (tryWithAccount acct keyword options sc w0).1 = r)
    /\ bind (mark (EvTry (email acct))) (fun _ => tryWithAccount acct keyword options sc) w
       = (r, after w f (EvTry (email acct) :: evs))
    /\ Forall Attempt evs.
Proof.
  destruct (tame_tryWithAccount acct keyword options sc) as [r Hr].
  destruct (Hr (record (EvTry (email acct)) w)) as (evs & f & E & HP).
  exists r, f, evs. split; [ | split; [ | done ] ].
  - intros w0. by destruct (behaves_run _ _ _ w0 Hr) as [-> _].
  - unfold bind, mark. rewrite E. f_equal.
    unfold after, record. simpl. by rewrite <- app_assoc.
Qed.

Lemma scrape_loop_failures keyword options scs reason pre :
  forall rest i errors w,
    (forall j b, pre !! j = Some b ->
       forall w0, (tryWithAccount b keyword options (scs (i + j)%nat) w0).1
                  = Throw (reason (i + j)%nat)) ->
    exists f evs,
      scrape_loop keyword options scs (pre ++ rest) i errors w
      = scrape_loop keyword options scs rest (i + length pre)
          (errors ++ imap (error_entry reason i) pre) (after w f evs)
      /\ orchestrator_view evs = flat_map failed_view pre.
Proof.
  induction pre as [ | b pre IH]; intros rest i errors w Hfail.
  - exists (fs w), []. simpl. by rewrite Nat.add_0_r, app_nil_r, after_id.
  - destruct (attempt_step keyword options (scs i) b w) as (r & f & evs & Hr & E & HP).
    assert (r = Throw (reason i)) as ->.
    { rewrite <- (Hr w). pose proof (Hfail 0%nat b eq_refl w) as H0.
      by rewrite Nat.add_0_r in H0. }
    simpl scrape_loop. unfold try_catch. rewrite E.
    unfold bind at 1. rewrite deleteCookies_run.
    set (w1 := after _ _ [EvDelete (cookieFile b)]).
    destruct (IH rest (S i)
                (errors ++ [{| failed_account := email b; failed_error := reason i |}])%list
                w1) as (f2 & evs2 & E2 & Hv2).
    { intros j c Hc w0. specialize (Hfail (S j) c Hc w0).
      by rewrite Nat.add_succ_r in Hfail. }
    rewrite E2. subst w1. rewrite !after_after.
    eexists _, _. split.
    + f_equal.
      * simpl. lia.
      * rewrite <- app_assoc. f_equal. simpl. f_equal.
        -- unfold error_entry. by rewrite Nat.add_0_r.
        -- apply imap_ext. intros j c _. unfold error_entry. simpl.
           by rewrite Nat.add_succ_r.
    + rewrite !orchestrator_view_app. simpl.
      rewrite (orchestrator_view_attempt evs HP), Hv2. done.
Qed.

Lemma attempted_view h : attempted (orchestrator_view h) = attempted h.
Proof.
  induction h as [ | ev h IH]; [ done | ].
  unfold orchestrator_view in *. destruct ev; simpl; by rewrite ?IH.
Qed.

Lemma attempted_failed_view l : attempted (flat_map failed_view l) = map email l.
Proof. induction l as [ | a l IH]; simpl; [ done | by rewrite IH ]. Qed.

(** C7.  When the attempts of the accounts before [a] in the sorted pool
    throw and the attempt of [a] returns [r], [scrapeKeywords] returns
    [r]; the accounts attempted are those before [a] and [a] itself, so
    none after it; and nothing of the errors collected so far shows. *)
Theorem first_success_is_returned keyword options scs w configured pre a post reason r :
  valid_platform options ->
  heap w !! config_keywordToolAccounts = Some configured ->
  Js.sort (cookie_priority (fs w)) configured = (pre ++ a :: post)%list ->
  (forall j b, pre !! j = Some b ->
     forall w0, (tryWithAccount b keyword options (scs j) w0).1 = Throw (reason j)) ->
  (forall w0, (tryWithAccount a keyword options (scs (length pre)) w0).1 = Ok r) ->
  exists evs,
    (scrapeKeywords keyword options scs w).1 = Ok r
    /\ history (scrapeKeywords keyword options scs w).2 = (history w ++ evs)%list
    /\ attempted evs = map email (pre ++ [a]).
Proof.
  intros Hp Hcfg Hsort Hfail Hok.
  assert (Hne : configured <> []).
  { intros ->. simpl in Hsort. by destruct pre. }
  rewrite (scrapeKeywords_run _ _ _ _ configured) by done. rewrite Hsort.
  destruct (scrape_loop_failures keyword options scs reason pre (a :: post) 0 []
              (loop_start w configured) Hfail) as (f & evs & E & Hv).
  rewrite E. simpl scrape_loop. unfold try_catch.
  destruct (attempt_step keyword options (scs (length pre)) a
              (after (loop_start w configured) f evs)) as (ra & fa & evsa & Hra & Ea & HPa).
  simpl in Ea |- *. rewrite Ea.
  assert (ra = Ok r) as -> by (by rewrite <- (Hra w), Hok).
  exists (evs ++ EvTry (email a) :: evsa)%list. simpl.
  split; [ done | split; [ by rewrite app_assoc | ] ].
  rewrite <- attempted_view, orchestrator_view_app, Hv. simpl.
  rewrite (orchestrator_view_attempt evsa HPa).
  unfold attempted. rewrite omap_app. fold (attempted (flat_map failed_view pre)).
  rewrite attempted_failed_view, map_app. done.
Qed.

Lemma error_entry_accounts reason n l :
  map failed_account (imap (error_entry reason n) l) = map email l.
Proof.
  revert n. induction l as [ | b l IH]; intros n; [ done | ].
  simpl. f_equal. rewrite <- (IH (S n)). f_equal. apply imap_ext.
  intros j c _. unfold error_entry. simpl. f_equal. f_equal. lia.
Qed.

(** C8.  When the attempt of every account of the sorted pool throws,
    [scrapeKeywords] throws one error whose message lists, in the order of
    the attempts, one entry per configured account: its email and the
    message of the error its own attempt threw. *)
Theorem all_failures_are_aggregated keyword options scs w configured reason :
  valid_platform options ->
  heap w !! config_keywordToolAccounts = Some configured ->
  configured <> [] ->
  let sorted := Js.sort (cookie_priority (fs w)) configured in
  (forall j b, sorted !! j = Some b ->
     forall w0, (tryWithAccount b keyword options (scs j) w0).1 = Throw (reason j)) ->
  let errors := imap (error_entry reason 0) sorted in
  (scrapeKeywords keyword options scs w).1 = Throw (msg_all_failed errors)
  /\ length errors = length configured
  /\ map failed_account errors = map email sorted
  /\ map failed_account errors ≡ₚ map email configured
  /\ (forall j b, sorted !! j = Some b ->
        errors !! j = Some {| failed_account := email b; failed_error := reason j |}).
Proof.
  intros Hp Hcfg Hne sorted Hfail errors.
  rewrite (scrapeKeywords_run _ _ _ _ configured) by done. fold sorted.
  destruct (scrape_loop_failures keyword options scs reason sorted [] 0 []
              (loop_start w configured) Hfail) as (f & evs & E & Hv).
  rewrite app_nil_r in E. rewrite E. simpl.
  assert (Hmap : map failed_account errors = map email sorted).
  { apply error_entry_accounts. }
  split; [ done | split; [ | split; [ done | split ] ] ].
  - subst errors. rewrite length_imap. apply sort_length.
  - rewrite Hmap. subst sorted. by rewrite sort_perm.
  - intros j b Hb. subst errors. rewrite list_lookup_imap, Hb. done.
Qed.

(** *** Deletion of the cookie file *)

Lemma tryWithAccount_account acct keyword options sc r :
  (forall w0, (tryWithAccount acct keyword options sc w0).1 = Ok r) ->
  account r = email acct.
Proof.
  intros H.
  pose (w0 := {| fs := {| files := ∅; unreadable := ∅; unwritable := ∅ |};
                 heap := []; history := [] |}).
  specialize (H w0).
  destruct (tryWithAccount acct keyword options sc w0) as [r' w'] eqn:E.
  simpl in H. subst r'.
  apply tryWithAccount_ok in E as (wb & E & _).
  by apply attempt_body_ok in E as (? & ? & _ & _ & _ & _ & ? & _).
Qed.

(** The two ways an iteration of the loop ends. *)
Lemma scrape_loop_returns keyword options scs b rest i errors w r w1 :
  bind (mark (EvTry (email b))) (fun _ => tryWithAccount b keyword options (scs i)) w
  = (Ok r, w1) ->
  scrape_loop keyword options scs (b :: rest) i errors w = (Ok r, w1).
Proof. intros E. simpl. unfold try_catch. by rewrite E. Qed.

Lemma scrape_loop_continues keyword options scs b rest i errors w e w1 :
  bind (mark (EvTry (email b))) (fun _ => tryWithAccount b keyword options (scs i)) w
  = (Throw e, w1) ->
  scrape_loop keyword options scs (b :: rest) i errors w
  = scrape_loop keyword options scs rest (S i)
      (errors ++ [{| failed_account := email b; failed_error := e |}])%list
      (deleteCookies (cookieFile b) w1).2.
Proof.
  intros E. simpl. unfold try_catch. rewrite E. unfold bind.
  by rewrite deleteCookies_run.
Qed.

(** The loop, seen through its own events: every account whose attempt
    threw is followed by the deletion of its cookie file, and the account
    whose attempt returned is followed by nothing. *)
Lemma scrape_loop_view keyword options scs accounts :
  forall i errors w,
    let out := scrape_loop keyword options scs accounts i errors w in
    exists f evs k,
      out.2 = after w f evs
      /\ orchestrator_view evs
         = (flat_map failed_view (take k accounts)
            ++ match out.1 with Ok r => [EvTry (account r)] | Throw _ => [] end)%list
      /\ (forall j b, (j < k)%nat -> accounts !! j = Some b ->
            exists e, forall w0,
              (tryWithAccount b keyword options (scs (i + j)%nat) w0).1 = Throw e)
      /\ match out.1 with
         | Ok r =>
             exists b, accounts !! k = Some b /\ account r = email b
               /\ forall w0, (tryWithAccount b keyword options (scs (i + k)%nat) w0).1 = Ok r
         | Throw _ => k = length accounts
         end.
Proof.
  induction accounts as [ | b rest IH]; intros i errors w out; subst out.
  - exists (fs w), [], 0%nat. simpl. rewrite after_id.
    split; [ done | split; [ done | split; [ | done ] ] ]. intros j b Hj. lia.
  - destruct (attempt_step keyword options (scs i) b w) as (r & f & evs & Hr & E & HP).
    destruct r as [r | e].
    + rewrite (scrape_loop_returns _ _ _ _ _ _ _ _ _ _ E).
      exists f, (EvTry (email b) :: evs), 0%nat. simpl.
      rewrite Nat.add_0_r.
      assert (Hacc : account r = email b) by (by eapply tryWithAccount_account).
      split; [ done | split; [ | split ] ].
      * unfold orchestrator_view in *. simpl.
        change (List.filter orchestrator_event evs) with (orchestrator_view evs).
        by rewrite (orchestrator_view_attempt evs HP), Hacc.
      * intros j c Hj. lia.
      * by exists b.
    + rewrite (scrape_loop_continues _ _ _ _ _ _ _ _ _ _ E).
      rewrite deleteCookies_run. simpl snd.
      set (w1 := after _ _ [EvDelete (cookieFile b)]).
      destruct (IH (S i)
                  (errors ++ [{| failed_account := email b; failed_error := e |}])%list w1)
        as (f2 & evs2 & k & E2 & Hv & Hthrow & Hres).
      destruct (scrape_loop keyword options scs rest (S i) _ w1) as [res w2].
      simpl in E2, Hv, Hres |- *. subst w2 w1. rewrite !after_after.
      eexists _, _, (S k). split; [ done | split; [ | split ] ].
      * rewrite !orchestrator_view_app. simpl.
        change (List.filter orchestrator_event evs) with (orchestrator_view evs).
        rewrite (orchestrator_view_attempt evs HP), Hv. done.
      * intros [ | j] c Hj Hc.
        -- simpl in Hc. injection Hc as <-. exists e. by rewrite Nat.add_0_r.
        -- rewrite Nat.add_succ_r. apply (Hthrow j c); [ lia | done ].
      * destruct res as [r | e'].
        -- destruct Hres as (c & Hc & Hacc & Hok). exists c.
           by rewrite Nat.add_succ_r.
        -- simpl. by rewrite Hres.
Qed.

(** C1, as the code has it.  The cookie file of an account is deleted
    exactly when its attempt throws: seen through the events of the loop,
    a run of [scrapeKeywords] is a sequence of failed attempts, each
    followed at once by the deletion of the account's cookie file, ended
    either by the attempt that returned, after which nothing is deleted,
    or by the exhaustion of the pool.  The attempt itself deletes
    nothing, whatever [loginIfNeeded] threw inside it.  A deletion leaves
    no file behind when the path can be written. *)
Theorem cookies_deleted_when_attempt_throws keyword options scs w configured :
  valid_platform options ->
  heap w !! config_keywordToolAccounts = Some configured ->
  let sorted := Js.sort (cookie_priority (fs w)) configured in
  let out := scrapeKeywords keyword options scs w in
  exists evs k,
    history out.2 = (history w ++ evs)%list
    /\ orchestrator_view evs
       = (flat_map failed_view (take k sorted)
          ++ match out.1 with Ok r => [EvTry (account r)] | Throw _ => [] end)%list
    /\ (forall j b, (j < k)%nat -> sorted !! j = Some b ->
          exists e, forall w0,
            (tryWithAccount b keyword options (scs j) w0).1 = Throw e)
    /\ match out.1 with
       | Ok r =>
           exists b, sorted !! k = Some b /\ account r = email b
             /\ forall w0, (tryWithAccount b keyword options (scs k) w0).1 = Ok r
       | Throw _ => k = length sorted
       end
    /\ (forall acct sc w0,
          orchestrator_view (history (tryWithAccount acct keyword options sc w0).2)
          = orchestrator_view (history w0))
    /\ (forall f w0, f ∉ unwritable (fs w0) ->
          files (fs (deleteCookies f w0).2) !! f = None).
Proof.
  intros Hp Hcfg sorted out.
  assert (Hquiet : forall acct sc w0,
            orchestrator_view (history (tryWithAccount acct keyword options sc w0).2)
            = orchestrator_view (history w0)).
  { intros acct sc w0.
    destruct (tame_history Attempt _ w0 (tame_tryWithAccount acct keyword options sc))
      as (evs & -> & HP).
    by rewrite orchestrator_view_app, (orchestrator_view_attempt evs HP), app_nil_r. }
  assert (Hdel : forall f w0, f ∉ unwritable (fs w0) ->
            files (fs (deleteCookies f w0).2) !! f = None).
  { intros f w0 Hw0. rewrite deleteCookies_run. simpl.
    destruct (existsSync (fs w0) f) eqn:Ex.
    - unfold unlinkSync. rewrite bool_decide_eq_false_2 by done.
      apply existsSync_true in Ex as [data Ex]. rewrite Ex. simpl.
      apply lookup_delete_eq.
    - by apply existsSync_false. }
  assert (Hcases : configured = [] \/ configured <> [])
    by (destruct configured; [ by left | by right ]).
  destruct Hcases as [-> | Hne].
  - exists [], 0%nat. subst out sorted.
    rewrite scrapeKeywords_no_accounts by done. simpl. rewrite app_nil_r.
    repeat split; try done. all: intros; lia.
  - subst out. rewrite (scrapeKeywords_run _ _ _ _ configured) by done. fold sorted.
    destruct (scrape_loop_view keyword options scs sorted 0 [] (loop_start w configured))
      as (f & evs & k & E & Hv & Hthrow & Hres).
    exists evs, k. rewrite E. simpl. done.
Qed.

(** *** Saving the cookies *)

Lemma saved_by_login_bind {A} p acct (m : M A) (f : A -> M bool) w :
  tame NoSave m ->
  (forall a w1, saved_by_login p acct (save_calls (history w1)) (f a w1)) ->
  saved_by_login p acct (save_calls (history w)) (bind m f w).
Proof.
  intros Hm Hf. unfold bind.
  destruct (m w) as [[a | e] w1] eqn:E; apply quiet_run in E; try done.
  - rewrite <- E. apply Hf.
  - by left.
Qed.

Lemma submit_credentials_saves p acct w :
  saved_by_login p acct (save_calls (history w)) (submit_credentials p acct w).
Proof.
  unfold submit_credentials.
  apply saved_by_login_bind; [ tame | intros _ w1 ].
  apply saved_by_login_bind; [ tame | intros _ w2 ].
  apply saved_by_login_bind; [ tame | intros isRedirected w3 ].
  apply saved_by_login_bind; [ tame | intros bodyText w4 ].
  destruct (challenge_signal _ _); [ by left | ].
  destruct (negb isRedirected || _).
  - apply saved_by_login_bind; [ tame | intros errorMsg w5 ]. by left.
  - unfold bind, call.
    destruct (lp_cookies p) as [cookies | e] eqn:Ec; [ | left; simpl ].
    + destruct (lp_user_agent p) as [ua | e] eqn:Eu; [ | left; simpl ].
      * rewrite saveCookies_run. unfold ret. right. split; [ done | ].
        exists cookies, ua. split; [ done | split; [ done | ] ].
        simpl. rewrite !save_calls_app. simpl. by rewrite !app_nil_r.
      * rewrite !save_calls_app. simpl. by rewrite !app_nil_r.
    + rewrite !save_calls_app. simpl. by rewrite !app_nil_r.
Qed.

Lemma loginIfNeeded_saves p acct w :
  saved_by_login p acct (save_calls (history w)) (loginIfNeeded p acct w).
Proof.
  unfold loginIfNeeded.
  apply saved_by_login_bind; [ tame | intros isLoginVisible w1 ].
  destruct (negb isLoginVisible); [ | apply submit_credentials_saves ].
  apply saved_by_login_bind; [ tame | intros isUserMenuVisible w2 ].
  destruct isUserMenuVisible; [ by left | apply submit_credentials_saves ].
Qed.

(** C2, as the code has it.  In an attempt that returns, [saveCookies] is
    called after the extraction exactly when some extracted record has
    [isDataAvailable = true]; when every extracted record has
    [isDataAvailable = false] the attempt makes no call of [saveCookies]
    after the login.  The login, which comes first, makes none before it
    runs and at most one itself: the one of a credential login that
    succeeded. *)
Theorem cookies_saved_after_real_data acct keyword options sc w r w' :
  tryWithAccount acct keyword options sc w = (Ok r, w') ->
  exists allKeywords w1,
    let logged_in := loginIfNeeded (sc_login sc) acct w1 in
    (forall w0, (extractKeywords (sc_table sc) w0).1 = Ok allKeywords)
    /\ save_calls (history w1) = save_calls (history w)
    /\ saved_by_login (sc_login sc) acct (save_calls (history w)) logged_in
    /\ (Forall (fun kw => isDataAvailable kw = false) allKeywords ->
        save_calls (history w') = save_calls (history logged_in.2))
    /\ (Exists (fun kw => isDataAvailable kw = true) allKeywords ->
        exists cookies ua,
          sc_cookies sc = Ok cookies /\ sc_user_agent sc = Ok ua
          /\ save_calls (history w')
             = (save_calls (history logged_in.2)
                ++ [EvSave (cookieFile acct) cookies ua])%list).
Proof.
  intros H. apply tryWithAccount_ok in H as (wb & H & ->).
  apply attempt_body_ok in H
    as (allKeywords & w1 & Hx & _ & _ & _ & _ & Hbefore & Hafter).
  exists allKeywords, w1. cbv zeta.
  assert (Hclose : save_calls (history (record EvClose wb)) = save_calls (history wb)).
  { simpl. rewrite save_calls_app. simpl. by rewrite app_nil_r. }
  assert (Hlaunch : save_calls (history (record EvLaunch w)) = save_calls (history w)).
  { simpl. rewrite save_calls_app. simpl. by rewrite app_nil_r. }
  rewrite Hclose. rewrite Hlaunch in Hbefore.
  split; [ done | split; [ done | split; [ | split ] ] ].
  - rewrite <- Hbefore. apply loginIfNeeded_saves.
  - intros Hall.
    assert (existsb isDataAvailable allKeywords = false) as Hnone.
    { apply not_true_is_false. intros Hex.
      apply List.existsb_exists in Hex as (kw & Hin & Hkw).
      rewrite List.Forall_forall in Hall. specialize (Hall kw Hin). congruence. }
    by rewrite Hnone in Hafter.
  - intros Hsome.
    assert (existsb isDataAvailable allKeywords = true) as Hex.
    { apply List.existsb_exists. by apply List.Exists_exists in Hsome. }
    by rewrite Hex in Hafter.
Qed.

(** * Further properties of the scraper *)

(** ** The session store *)

Lemma writeFileSync_ok f0 f data :
  f ∉ unwritable f0 ->
  writeFileSync f0 f data
  = Ok {| files := <[f := data]> (files f0);
          unreadable := unreadable f0;
          unwritable := unwritable f0 |}.
Proof. intros H. unfold writeFileSync. by rewrite bool_decide_eq_false_2. Qed.

(** X1.  A second [saveCookies] on the same file replaces the first: on a
    path that can be written and read, with a second record that the JSON
    built-ins carry through, [loadCookies] gives the second record. *)
Theorem last_save_wins f cookies1 ua1 cookies2 ua2 w :
  f ∉ unwritable (fs w) ->
  f ∉ unreadable (fs w) ->
  JSON_parse (JSON_stringify (session_json cookies2 ua2)) = Some (session_json cookies2 ua2) ->
  (loadCookies f (saveCookies f cookies2 ua2 (saveCookies f cookies1 ua1 w).2).2).1
  = Ok (session_json cookies2 ua2).
Proof.
  intros Hw Hr Hjson.
  rewrite (saveCookies_run f cookies1 ua1 w), writeFileSync_ok by done.
  rewrite saveCookies_run. simpl. rewrite writeFileSync_ok by done.
  rewrite loadCookies_run. simpl.
  replace (existsSync _ f) with true.
  - unfold readFileSync. simpl. rewrite bool_decide_eq_false_2 by done.
    by rewrite lookup_insert_eq, Hjson.
  - symmetry. apply existsSync_true. simpl. rewrite lookup_insert_eq. by eexists.
Qed.

Lemma loadCookies_same_file_state g w w' :
  files (fs w') !! g = files (fs w) !! g ->
  unreadable (fs w') = unreadable (fs w) ->
  (loadCookies g w').1 = (loadCookies g w).1.
Proof.
  intros Hf Hr. rewrite !loadCookies_run. simpl.
  unfold existsSync, readFileSync. by rewrite Hf, Hr.
Qed.

(** X2.  The slots of the store are independent: saving or deleting the
    cookies of one file changes nothing of what [loadCookies] gives for
    another. *)
Theorem store_slots_are_independent f g cookies ua w :
  g <> f ->
  (loadCookies g (saveCookies f cookies ua w).2).1 = (loadCookies g w).1
  /\ (loadCookies g (deleteCookies f w).2).1 = (loadCookies g w).1.
Proof.
  intros Hne. split; apply loadCookies_same_file_state.
  - rewrite saveCookies_run. simpl. unfold writeFileSync.
    case_bool_decide; [ done | ]. simpl. by rewrite lookup_insert_ne.
  - rewrite saveCookies_run. simpl. unfold writeFileSync. by case_bool_decide.
  - rewrite deleteCookies_run. simpl. unfold unlinkSync.
    destruct (existsSync _ _); [ | done ]. case_bool_decide; [ done | ].
    destruct (files (fs w) !! f); [ | done ]. simpl. by rewrite lookup_delete_ne.
  - rewrite deleteCookies_run. simpl. unfold unlinkSync.
    destruct (existsSync _ _); [ | done ]. case_bool_decide; [ done | ].
    by destruct (files (fs w) !! f).
Qed.

(** X3.  [deleteCookies] never throws; deleting twice leaves the file
    system as deleting once; and when the file is not there the file
    system is left as it is. *)
Theorem deleteCookies_is_idempotent f w :
  (deleteCookies f w).1 = Ok tt
  /\ fs (deleteCookies f (deleteCookies f w).2).2 = fs (deleteCookies f w).2
  /\ (files (fs w) !! f = None -> fs (deleteCookies f w).2 = fs w).
Proof.
  assert (Hfs : forall w0,
            fs (deleteCookies f w0).2
            = if existsSync (fs w0) f
              then match unlinkSync (fs w0) f with Ok f' => f' | Throw _ => fs w0 end
              else fs w0).
  { intros w0. by rewrite deleteCookies_run. }
  split; [ by rewrite deleteCookies_run | split ].
  - rewrite (Hfs (deleteCookies f w).2), (Hfs w).
    destruct (existsSync (fs w) f) eqn:Hex; [ | by rewrite Hex ].
    unfold unlinkSync. case_bool_decide as Hw.
    + rewrite Hex. by rewrite bool_decide_eq_true_2.
    + apply existsSync_true in Hex as [data Hdata]. rewrite Hdata.
      replace (existsSync _ f) with false; [ done | ].
      symmetry. apply existsSync_false. simpl. apply lookup_delete_eq.
  - intros Hnone. rewrite Hfs. by rewrite (proj2 (existsSync_false _ _) Hnone).
Qed.

(** ** Language and extraction *)

(** X4.  [setLanguageIndonesian] never throws, whatever the page answers,
    and leaves the file system alone; when the selected language already
    starts with [Indonesian] it reads the control and does nothing else. *)
Theorem language_step_never_throws p w :
  (setLanguageIndonesian p w).1 = Ok tt
  /\ fs (setLanguageIndonesian p w).2 = fs w
  /\ (forall selected,
        lg_selected p = Ok selected ->
        nonempty selected && Js.startsWith (Js.trim selected) "Indonesian" = true ->
        setLanguageIndonesian p w = (Ok tt, record (EvTextContent sel_lang_control) w)).
Proof.
  unfold setLanguageIndonesian, catching, try_catch, bind, call, ret.
  split; [ | split ].
  - destruct (lg_selected p) as [s | e]; simpl.
    + destruct (nonempty s && _); simpl; [ done | ].
      destruct (lg_open p), (lg_fill p), (lg_option_visible p) as [[] | ?],
        (lg_option_click p), (lg_enter p), (lg_keyboard_type p), (lg_keyboard_enter p);
        repeat match goal with u : unit |- _ => destruct u end; reflexivity.
    + destruct (lg_keyboard_type p), (lg_keyboard_enter p);
        repeat match goal with u : unit |- _ => destruct u end; reflexivity.
  - destruct (lg_selected p) as [s | e]; simpl.
    + destruct (nonempty s && _); simpl; [ done | ].
      destruct (lg_open p), (lg_fill p), (lg_option_visible p) as [[] | ?],
        (lg_option_click p), (lg_enter p), (lg_keyboard_type p), (lg_keyboard_enter p);
        repeat match goal with u : unit |- _ => destruct u end; reflexivity.
    + destruct (lg_keyboard_type p), (lg_keyboard_enter p);
        repeat match goal with u : unit |- _ => destruct u end; reflexivity.
  - intros selected -> Hind. simpl. by rewrite Hind.
Qed.

(** X5.  [extractKeywords] counts the rows at most three times, stops at
    the first positive count (an error of the count is a count of 0),
    reads the table once and only after a positive count, and returns the
    empty list without an error when no count was positive. *)
Theorem table_wait_is_bounded p w :
  let count i := catch_default 0%nat (tb_count p i) in
  let counted n := replicate n (EvCount sel_rows) in
  let read n :=
    (match tb_rows p with
     | Ok rows => Ok (extract_rows rows)
     | Throw e => Throw e
     end,
     after w (fs w) (counted n ++ [EvEvaluate "table tbody tr"])%list) in
  extractKeywords p w =
    if (0 <? count 0)%nat then read 1%nat
    else if (0 <? count 1)%nat then read 2%nat
    else if (0 <? count 2)%nat then read 3%nat
    else (Ok [], after w (fs w) (counted 3%nat)).
Proof.
  intros count counted read. subst count counted read.
  unfold extractKeywords. simpl wait_for_table.
  unfold catching, try_catch, bind, call, ret.
  destruct (tb_count p 0) as [c0 | e0]; simpl.
  - destruct (0 <? c0)%nat; simpl.
    + destruct (tb_rows p); unfold after, record; simpl; by rewrite <- ?app_assoc.
    + destruct (tb_count p 1) as [c1 | e1]; simpl.
      * destruct (0 <? c1)%nat; simpl.
        -- destruct (tb_rows p); unfold after, record; simpl; by rewrite <- ?app_assoc.
        -- destruct (tb_count p 2) as [c2 | e2]; simpl.
           ++ destruct (0 <? c2)%nat; simpl;
                [ destruct (tb_rows p) | ]; unfold after, record; simpl;
                by rewrite <- ?app_assoc.
           ++ unfold after, record; simpl; by rewrite <- ?app_assoc.
      * destruct (tb_count p 2) as [c2 | e2]; simpl.
        -- destruct (0 <? c2)%nat; simpl;
             [ destruct (tb_rows p) | ]; unfold after, record; simpl;
             by rewrite <- ?app_assoc.
        -- unfold after, record; simpl; by rewrite <- ?app_assoc.
  - destruct (tb_count p 1) as [c1 | e1]; simpl.
    + destruct (0 <? c1)%nat; simpl.
      * destruct (tb_rows p); unfold after, record; simpl; by rewrite <- ?app_assoc.
      * destruct (tb_count p 2) as [c2 | e2]; simpl.
        -- destruct (0 <? c2)%nat; simpl;
             [ destruct (tb_rows p) | ]; unfold after, record; simpl;
             by rewrite <- ?app_assoc.
        -- unfold after, record; simpl; by rewrite <- ?app_assoc.
    + destruct (tb_count p 2) as [c2 | e2]; simpl.
      * destruct (0 <? c2)%nat; simpl;
          [ destruct (tb_rows p) | ]; unfold after, record; simpl;
          by rewrite <- ?app_assoc.
      * unfold after, record; simpl; by rewrite <- ?app_assoc.
Qed.

(** *** Trimmed text *)

Lemma trimEnd_idem s : Js.trimEnd (Js.trimEnd s) = Js.trimEnd s.
Proof.
  induction s as [ | c s IH]; [ done | ]. simpl.
  destruct (Js.trimEnd s) as [ | d t] eqn:Et.
  - destruct (Js.is_white c) eqn:Ec; simpl; [ done | by rewrite Ec ].
  - simpl in IH |- *. by rewrite IH.
Qed.

Lemma trimStart_starts_clean s : starts_clean (Js.trimStart s).
Proof.
  induction s as [ | c s IH]; simpl; [ done | ].
  destruct (Js.is_white c) eqn:Ec; [ done | ]. simpl. done.
Qed.

Lemma trimStart_clean s : starts_clean s -> Js.trimStart s = s.
Proof. destruct s as [ | c s]; simpl; [ done | ]. by intros ->. Qed.

Lemma trimEnd_starts_clean s : starts_clean s -> starts_clean (Js.trimEnd s).
Proof.
  destruct s as [ | c s]; simpl; [ done | ]. intros Hc.
  destruct (Js.trimEnd s); simpl; [ by rewrite Hc | done ].
Qed.

Lemma trim_idem s : Js.trim (Js.trim s) = Js.trim s.
Proof.
  unfold Js.trim.
  rewrite (trimStart_clean (Js.trimEnd (Js.trimStart s)))
    by apply trimEnd_starts_clean, trimStart_starts_clean.
  apply trimEnd_idem.
Qed.

Lemma row_record_text row kw :
  row_record row = Some kw ->
  nonempty (keyword kw) = true
  /\ Js.trim (keyword kw) = keyword kw
  /\ nonempty (trend kw) = true.
Proof.
  unfold row_record. intros H.
  destruct (has_colspan_cell row); [ discriminate | ].
  destruct (length (cells row) <? 3)%nat; [ discriminate | ].
  destruct (cells row !! 2%nat) as [volCell | ]; [ | discriminate ].
  destruct (nonempty _) eqn:Ek; [ | discriminate ].
  injection H as <-. simpl. split; [ done | split ].
  - destruct (cells row !! 1%nat); [ apply trim_idem | done ].
  - match goal with
    | |- context [if nonempty ?t then _ else _] => destruct (nonempty t) eqn:Et
    end; done.
Qed.

Lemma extract_rows_length rows : (length (extract_rows rows) <= length rows)%nat.
Proof.
  unfold extract_rows. induction rows as [ | row rows IH]; [ done | ].
  cbn [omap list_omap length]. destruct (row_record row); cbn [length]; lia.
Qed.

(** X6.  Every record that [extractKeywords] returns has a keyword that is
    not empty and carries no white space at either end, and a trend text
    that is not empty; there are at most as many records as rows. *)
Theorem extracted_records_are_well_formed p w kws :
  (extractKeywords p w).1 = Ok kws ->
  Forall (fun kw => nonempty (keyword kw) = true
                    /\ Js.trim (keyword kw) = keyword kw
                    /\ nonempty (trend kw) = true) kws
  /\ (forall rows, tb_rows p = Ok rows -> (length kws <= length rows)%nat).
Proof.
  intros H.
  apply extractKeywords_inv in H as [-> | (rows & Hrows & ->)].
  - split; [ constructor | intros; simpl; lia ].
  - split.
    + apply List.Forall_forall. intros kw Hin.
      apply list_elem_of_In in Hin. unfold extract_rows in Hin.
      apply list_elem_of_omap in Hin as (row & _ & Hrec).
      by apply (row_record_text row).
    + intros rows' Hr. rewrite Hrows in Hr. injection Hr as <-.
      apply extract_rows_length.
Qed.

(** *** The sign of the volume *)

Lemma digit_value_nonneg c : Js.is_digit c = true -> 0 <= Js.digit_value c.
Proof.
  unfold Js.is_digit, Js.digit_value. intros H.
  apply andb_true_iff in H as [H _]. apply Nat.leb_le in H. lia.
Qed.

Lemma read_digits_nonneg s : forall acc seen n,
  0 <= acc -> Js.read_digits s acc seen = Some n -> 0 <= n.
Proof.
  induction s as [ | c s IH]; intros acc seen n Hacc; simpl.
  - destruct seen; [ | discriminate ]. by intros [= <-].
  - destruct (Js.is_digit c) eqn:Ec.
    + apply IH. pose proof (digit_value_nonneg c Ec). lia.
    + destruct seen; [ | discriminate ]. by intros [= <-].
Qed.

Lemma trimStart_no_white s :
  Js.trimStart (Js.remove_chars Js.is_white s) = Js.remove_chars Js.is_white s.
Proof.
  apply trimStart_clean. induction s as [ | c s IH]; simpl; [ done | ].
  destruct (Js.is_white c) eqn:Ec; [ done | ]. simpl. done.
Qed.

Lemma parse_volume_negative volumeText :
  parse_volume volumeText < 0 ->
  exists digits, clean_volume volumeText = String "-" digits.
Proof.
  unfold parse_volume, clean_volume.
  destruct (negb (String.eqb volumeText "-")); [ | lia ].
  set (clean := Js.remove_chars Js.is_white _).
  destruct (nonempty clean); [ | lia ].
  unfold Js.parseInt. subst clean. rewrite trimStart_no_white.
  set (clean := Js.remove_chars Js.is_white _).
  assert (Hpos : forall t, match Js.read_digits t 0 false with Some n => n | None => 0 end < 0
                           -> False).
  { intros t. destruct (Js.read_digits t 0 false) as [n | ] eqn:En; [ | lia ].
    apply read_digits_nonneg in En; lia. }
  destruct clean as [ | c rest]; [ intros H; by apply Hpos in H | ].
  destruct (Ascii.eqb c "-") eqn:Ec.
  - apply Ascii.eqb_eq in Ec as ->. intros _. by eexists.
  - intros H. exfalso.
    destruct c as [[] [] [] [] [] [] [] []]; try discriminate Ec;
      by apply Hpos in H.
Qed.

(** X7.  A record of [extractKeywords] has a negative [searchVolume] only
    when the text of its volume cell, not blurred, reads as a minus sign
    followed by something once trimmed and freed of commas and white
    space; in every other case the volume is 0 or more. *)
Theorem negative_volume_needs_minus_sign p w kws kw :
  (extractKeywords p w).1 = Ok kws ->
  In kw kws ->
  searchVolume kw < 0 ->
  exists rows row volCell digits,
    tb_rows p = Ok rows /\ In row rows /\ row_record row = Some kw
    /\ cells row !! 2%nat = Some volCell
    /\ is_blurred volCell = false
    /\ clean_volume (Js.trim (textContent volCell)) = String "-" digits.
Proof.
  intros H Hin Hneg.
  apply extractKeywords_inv in H as [-> | (rows & Hrows & ->)]; [ by destruct Hin | ].
  apply list_elem_of_In in Hin. unfold extract_rows in Hin.
  apply list_elem_of_omap in Hin as (row & Hrow & Hrec).
  apply list_elem_of_In in Hrow.
  destruct (row_record_inv row kw Hrec) as (volCell & Hc & Ha & Hf & Hv).
  rewrite Hv, Hf in Hneg.
  destruct (is_blurred volCell) eqn:Eb; [ by vm_compute in Hneg | ].
  apply parse_volume_negative in Hneg as [digits Hd].
  by exists rows, row, volCell, digits.
Qed.

(** ** One attempt, continued *)

Lemma tame_in_session_setLanguageIndonesian p : tame InSession (setLanguageIndonesian p).
Proof. unfold setLanguageIndonesian. tame. Qed.

Lemma tame_in_session_wait_for_table p n attempt :
  tame InSession (wait_for_table p n attempt).
Proof.
  revert attempt. induction n as [ | n IH]; intros attempt; simpl; tame.
Qed.

Hint Resolve tame_in_session_setLanguageIndonesian tame_in_session_wait_for_table : tame_db.

Lemma tame_in_session_extractKeywords p : tame InSession (extractKeywords p).
Proof. unfold extractKeywords. tame. Qed.

Lemma tame_in_session_submit_credentials p acct : tame InSession (submit_credentials p acct).
Proof. unfold submit_credentials. tame. Qed.

Hint Resolve tame_in_session_extractKeywords tame_in_session_submit_credentials : tame_db.

Lemma tame_in_session_loginIfNeeded p acct : tame InSession (loginIfNeeded p acct).
Proof. unfold loginIfNeeded. tame. Qed.

Hint Resolve tame_in_session_loginIfNeeded : tame_db.

Lemma tame_attempt_body_in_session acct keyword options sc :
  tame InSession (attempt_body acct keyword options sc).
Proof.
  unfold attempt_body. cbv zeta.
  apply (tame_reader_call InSession (loadCookies (cookieFile acct))
           (fun savedData => EvNewContext _ _));
    [ apply loadCookies_reader | done | tame ].
Qed.

(** X8.  The browser of an attempt is closed on every path: when the
    launch throws nothing else is called; when it succeeds, the history of
    the attempt is the launch, calls made inside the session, and the
    close as the last call, whatever failed in between; and an error of
    the close is the error of the attempt. *)
Theorem browser_is_always_closed acct keyword options sc w :
  let out := tryWithAccount acct keyword options sc w in
  match sc_launch sc with
  | Throw e => out = (Throw e, record EvLaunch w)
  | Ok _ =>
      exists f evs,
        out.2 = after w f (EvLaunch :: evs ++ [EvClose])
        /\ Forall InSession evs
        /\ (forall e, sc_close sc = Throw e -> out.1 = Throw e)
  end.
Proof.
  cbv zeta. unfold tryWithAccount, bind, call, try_finally.
  destruct (sc_launch sc) as [[] | e]; [ | done ].
  destruct (tame_attempt_body_in_session acct keyword options sc) as [r Hr].
  destruct (Hr (record EvLaunch w)) as (evs & f & E & HP). rewrite E.
  exists f, evs. split; [ | split; [ done | ] ].
  - destruct (sc_close sc) as [[] | e]; simpl;
      unfold after, record; simpl; by rewrite <- !app_assoc.
  - intros e ->. done.
Qed.

Lemma try_finally_result {A} (m : M A) ev (r : res unit) w :
  (try_finally m (call ev r) w).1
  = match r with Ok _ => (m w).1 | Throw e => Throw e end.
Proof.
  unfold try_finally, call. destruct (m w) as [rm wm]. by destruct r.
Qed.

Lemma same_result_tame {A} P (m : M A) : tame P m -> same_result m m.
Proof. intros H w1 w2. by apply (tame_result_indep P). Qed.

Lemma same_result_call {A} ev1 ev2 (r : res A) : same_result (call ev1 r) (call ev2 r).
Proof. intros w1 w2. reflexivity. Qed.

Lemma same_result_bind {A B} (m1 m2 : M A) (f1 f2 : A -> M B) :
  same_result m1 m2 -> (forall a, same_result (f1 a) (f2 a)) ->
  same_result (bind m1 f1) (bind m2 f2).
Proof.
  intros Hm Hf w1 w2. unfold bind. specialize (Hm w1 w2).
  destruct (m1 w1) as [[a1 | e1] w1'], (m2 w2) as [[a2 | e2] w2']; simpl in Hm;
    try discriminate; simpl; [ | by injection Hm as -> ].
  injection Hm as ->. apply Hf.
Qed.

Lemma same_result_readers {A B} (m1 m2 : M A) (f1 f2 : A -> M B) :
  reader m1 -> reader m2 -> (forall a1 a2, same_result (f1 a1) (f2 a2)) ->
  same_result (bind m1 f1) (bind m2 f2).
Proof.
  intros H1 H2 Hf w1 w2. unfold bind.
  destruct (H1 w1) as [a1 ->], (H2 w2) as [a2 ->]. apply Hf.
Qed.

Lemma same_result_login_or_guest p1 p2 acct :
  same_result
    (try_catch (bind (loginIfNeeded p1 acct) (fun _ => ret tt)) (fun loginErr => ret tt))
    (try_catch (bind (loginIfNeeded p2 acct) (fun _ => ret tt)) (fun loginErr => ret tt)).
Proof. intros w1 w2. by rewrite !login_or_guest_run. Qed.

Lemma attempt_body_login_indep acct keyword options sc login w :
  (attempt_body acct keyword options (with_login login sc) w).1
  = (attempt_body acct keyword options sc w).1.
Proof.
  revert w. cut (same_result (attempt_body acct keyword options (with_login login sc))
                   (attempt_body acct keyword options sc)); [ by intros H w | ].
  unfold attempt_body. cbv zeta. unfold with_login. simpl.
  apply same_result_readers; try apply loadCookies_reader. intros sd1 sd2.
  apply same_result_bind; [ apply same_result_call | intros _ ].
  apply same_result_bind; [ apply (same_result_tame Attempt); tame | intros _ ].
  apply same_result_bind; [ apply (same_result_tame Attempt); tame | intros _ ].
  apply same_result_bind; [ apply (same_result_tame Attempt); tame | intros _ ].
  apply same_result_bind; [ apply same_result_login_or_guest | intros _ ].
  apply (same_result_tame Attempt). tame.
Qed.

(** X9.  The login decides nothing about the result of an attempt: with
    any other login page, answering anything, [tryWithAccount] ends with the
    same result, a returned one or a thrown one.  A failed login is a guest
    attempt and not a failed attempt. *)
Theorem login_does_not_decide_the_attempt acct keyword options sc login w :
  (tryWithAccount acct keyword options (with_login login sc) w).1
  = (tryWithAccount acct keyword options sc w).1.
Proof.
  revert w. cut (same_result (tryWithAccount acct keyword options (with_login login sc))
                   (tryWithAccount acct keyword options sc)); [ by intros H w | ].
  unfold tryWithAccount. simpl sc_launch. simpl sc_close.
  apply same_result_bind; [ apply same_result_call | intros _ ].
  intros w1 w2. rewrite !try_finally_result.
  destruct (sc_close sc) as [[] | e]; [ | done ].
  by rewrite attempt_body_login_indep, (tame_result_indep Attempt _ w1 w2)
    by apply tame_attempt_rest.
Qed.

(** ** The failed submission (lines 82-97) *)




(** ** What the scraper does to the file system *)

Create HintDb steady_db.

Section Steady.

Variable Q : Fs -> Fs -> Prop.
Hypothesis Q_refl : forall f, Q f f.
Hypothesis Q_trans : forall f g h, Q f g -> Q g h -> Q f h.

Lemma steady_ret {A} (a : A) : steady Q (ret a).
Proof. intros w. apply Q_refl. Qed.

Lemma steady_throw {A} e : steady Q (@throw A e).
Proof. intros w. apply Q_refl. Qed.

Lemma steady_call {A} ev (r : res A) : steady Q (call ev r).
Proof. intros w. apply Q_refl. Qed.

Lemma steady_mark ev : steady Q (mark ev).
Proof. intros w. apply Q_refl. Qed.

Lemma steady_lift {A} (r : res A) : steady Q (lift r).
Proof. intros w. apply Q_refl. Qed.

Lemma steady_get_fs : steady Q get_fs.
Proof. intros w. apply Q_refl. Qed.

Lemma steady_bind {A B} (m : M A) (f : A -> M B) :
  steady Q m -> (forall a, steady Q (f a)) -> steady Q (bind m f).
Proof.
  intros Hm Hf w. unfold bind. specialize (Hm w).
  destruct (m w) as [[a | e] w1]; simpl in *; [ | done ].
  eapply Q_trans; [ exact Hm | apply Hf ].
Qed.

Lemma steady_try_catch {A} (m : M A) (h : string -> M A) :
  steady Q m -> (forall e, steady Q (h e)) -> steady Q (try_catch m h).
Proof.
  intros Hm Hh w. unfold try_catch. specialize (Hm w).
  destruct (m w) as [[a | e] w1]; simpl in *; [ done | ].
  eapply Q_trans; [ exact Hm | apply Hh ].
Qed.

Lemma steady_try_finally {A} (m : M A) (f : M unit) :
  steady Q m -> steady Q f -> steady Q (try_finally m f).
Proof.
  intros Hm Hf w. unfold try_finally. specialize (Hm w).
  destruct (m w) as [r w1]. specialize (Hf w1). simpl in *.
  destruct (f w1) as [[[] | e] w2]; simpl in *; by eapply Q_trans.
Qed.

Lemma steady_loadCookies f : steady Q (loadCookies f).
Proof. intros w. rewrite loadCookies_run. apply Q_refl. Qed.

Ltac steady_step :=
  first
    [ assumption
    | solve [ auto 2 with steady_db nocore ]
    | apply steady_ret | apply steady_throw | apply steady_call
    | apply steady_mark | apply steady_lift | apply steady_get_fs
    | apply steady_loadCookies
    | apply steady_bind; [ | intros ? ]
    | apply steady_try_catch; [ | intros ? ]
    | apply steady_try_finally
    | match goal with
      | |- steady _ (catching _ _) => unfold catching
      | |- steady _ (if ?b then _ else _) => destruct b
      | |- steady _ (match ?x with _ => _ end) => destruct x
      end ].

Lemma steady_setLanguageIndonesian p : steady Q (setLanguageIndonesian p).
Proof. unfold setLanguageIndonesian; cbv zeta; repeat steady_step. Qed.

Lemma steady_wait_for_table p n : forall attempt, steady Q (wait_for_table p n attempt).
Proof.
  induction n as [ | n IH]; intros attempt; simpl;
    repeat first [ apply IH | steady_step ].
Qed.

Lemma steady_extractKeywords p : steady Q (extractKeywords p).
Proof.
  unfold extractKeywords.
  apply steady_bind; [ apply steady_wait_for_table | intros ? ]; repeat steady_step.
Qed.

#[local] Hint Resolve steady_setLanguageIndonesian steady_extractKeywords : steady_db.

Section Account.

Variable acct : Account.
Hypothesis steady_save : forall cookies ua, steady Q (saveCookies (cookieFile acct) cookies ua).





End Account.


End Steady.









(** ** The order of the attempts (lines 493-518) *)

(** X13.  The attempts of a run are a prefix of this order: first the
    configured accounts whose cookie file exists when [scrapeKeywords]
    starts, then the others, both in the configured order.  The account of
    a returned result is the last one attempted. *)
Theorem attempts_follow_cookie_priority keyword options scs w configured :
  heap w !! config_keywordToolAccounts = Some configured ->
  let has := fun a => existsSync (fs w) (cookieFile a) in
  let order :=
    (List.filter has configured ++ List.filter (fun a => negb (has a)) configured)%list in
  let out := scrapeKeywords keyword options scs w in
  exists evs n,
    history out.2 = (history w ++ evs)%list
    /\ attempted evs = map email (take n order)
    /\ match out.1 with
       | Ok r => last (attempted evs) = Some (account r)
       | Throw _ => True
       end.
Proof.
  intros Hcfg. cbv zeta.
  destruct (Js.member PLATFORM_URLS (default "google" (opt_platform options)))
    as [url | ] eqn:Eurl.
  - assert (Hvalid : valid_platform options) by (unfold valid_platform; by rewrite Eurl).
    destruct configured as [ | c cs].
    + rewrite scrapeKeywords_no_accounts by done. exists [], 0%nat. simpl.
      by rewrite app_nil_r.
    + rewrite (scrapeKeywords_run _ _ _ _ (c :: cs)) by done.
      rewrite <- sort_cookie_priority.
      set (sorted := Js.sort (cookie_priority (fs w)) (c :: cs)).
      destruct (scrape_loop_view keyword options scs sorted 0%nat [] (loop_start w (c :: cs)))
        as (f & evs & k & Hout & Hv & _ & Hlast).
      exists evs. rewrite Hout. simpl.
      destruct (scrape_loop keyword options scs sorted 0 [] (loop_start w (c :: cs))).1
        as [r | e].
      * destruct Hlast as (b & Hb & Hr & _). exists (S k).
        split; [ done | ].
        rewrite <- attempted_view, Hv. unfold attempted. rewrite omap_app.
        fold (attempted (flat_map failed_view (take k sorted))).
        rewrite attempted_failed_view. simpl.
        rewrite (take_S_r _ _ b), map_app by done. rewrite Hr. simpl.
        split; [ done | ]. by rewrite last_snoc.
      * exists k. split; [ done | split; [ | done ] ].
        rewrite <- attempted_view, Hv, app_nil_r. apply attempted_failed_view.
  - unfold scrapeKeywords. rewrite Eurl. exists [], 0%nat. simpl.
    by rewrite app_nil_r.
Qed.

(** ** The fatal errors of [scrapeKeywords] (lines 479-491) *)

Lemma own_platform platform :
  is_Some (PLATFORM_URLS platform) <-> In platform PLATFORM_KEYS.
Proof.
  split.
  - unfold PLATFORM_URLS, PLATFORM_KEYS. intros [u Hu]. simpl.
    repeat match type of Hu with
           | context [String.eqb platform ?s] =>
               destruct (String.eqb_spec platform s) as [-> | ?]; [ tauto | ]
           end.
    discriminate.
  - unfold PLATFORM_KEYS. simpl.
    intros [<- | [<- | [<- | [<- | [<- | [] ] ] ] ] ]; by eexists.
Qed.

Lemma existsb_eqb_In key l : existsb (String.eqb key) l = true <-> In key l.
Proof.
  rewrite existsb_exists. split.
  - intros (x & Hx & Heq). apply String.eqb_eq in Heq. by subst.
  - intros H. exists key. split; [ done | apply String.eqb_refl ].
Qed.

Lemma valid_platform_iff options :
  valid_platform options
  <-> In (default "google" (opt_platform options)) (PLATFORM_KEYS ++ Js.Object_prototype)%list.
Proof.
  unfold valid_platform, Js.member. rewrite in_app_iff, <- own_platform.
  destruct (PLATFORM_URLS _) as [u | ]; [ split; [ by left | by eexists ] | ].
  destruct (existsb _ _) eqn:Ex.
  - split; [ right; by apply existsb_eqb_In | by eexists ].
  - split; [ by intros [? [=]] | ].
    intros [[? [=]] | Hin]. apply existsb_eqb_In in Hin. congruence.
Qed.

(** X14.  The lookup [PLATFORM_URLS[platform]] accepts the five platform
    names and the property names every object inherits.  For any other platform
    [scrapeKeywords] throws the invalid-platform message and touches
    nothing; for an accepted platform and an empty list of accounts it
    throws the no-accounts message before any account is tried: no event
    is recorded and the file system is the same. *)
Theorem fatal_errors_come_before_any_attempt keyword options scs w :
  let platform := default "google" (opt_platform options) in
  let out := scrapeKeywords keyword options scs w in
  (~ In platform (PLATFORM_KEYS ++ Js.Object_prototype)%list ->
     out = (Throw (msg_invalid_platform platform), w))
  /\ (In platform (PLATFORM_KEYS ++ Js.Object_prototype)%list ->
      heap w !! config_keywordToolAccounts = Some [] ->
      out.1 = Throw msg_no_accounts /\ fs out.2 = fs w /\ history out.2 = history w).
Proof.
  cbv zeta. split.
  - intros Hno. unfold scrapeKeywords.
    destruct (Js.member PLATFORM_URLS _) as [u | ] eqn:Eu; [ | done ].
    exfalso. apply Hno, valid_platform_iff. unfold valid_platform. by rewrite Eu.
  - intros Hin Hcfg. apply valid_platform_iff in Hin.
    by rewrite scrapeKeywords_no_accounts.
Qed.

(** ** The configured accounts (config.js) *)

Lemma append_inj_r (s t u : string) : s ++ t = s ++ u -> t = u.
Proof. induction s as [ | c s IH]; simpl; [ done | ]. intros [=]. by apply IH. Qed.

Lemma nonempty_true s : nonempty s = true <-> s <> "".
Proof.
  unfold nonempty. destruct (String.eqb_spec s ""); split; try done.
Qed.

Lemma slots_distinct dirname env :
  NoDup (map cookieFile [account_slot dirname env "1"; account_slot dirname env "2";
                          account_slot dirname env "3"]).
Proof.
  simpl. repeat constructor; rewrite ?elem_of_cons, ?elem_of_nil;
    intros H; repeat destruct H as [H | H]; try done;
    by apply append_inj_r in H.
Qed.

(** X15.  Whatever the environment holds, every configured account has an
    email and a password, no two of them share a cookie file, and a slot
    whose email and password are both set is configured. *)
Theorem configured_accounts_are_complete dirname env :
  let accounts := keywordToolAccounts dirname env in
  Forall (fun a => email a <> "" /\ password a <> "") accounts
  /\ NoDup (map cookieFile accounts)
  /\ (length accounts <= 3)%nat
  /\ forall n, In n ["1"; "2"; "3"] ->
       (In (account_slot dirname env n) accounts
        <-> env_or_empty env ("KEYWORDTOOL_EMAIL_" ++ n) <> ""
            /\ env_or_empty env ("KEYWORDTOOL_PASSWORD_" ++ n) <> "").
Proof.
  cbv zeta. unfold keywordToolAccounts.
  set (keep := fun a => nonempty (email a) && nonempty (password a)).
  set (slots := [account_slot dirname env "1"; account_slot dirname env "2";
                 account_slot dirname env "3"]).
  assert (Hkeep : forall a, keep a = true <-> email a <> "" /\ password a <> "").
  { intros a. unfold keep. by rewrite andb_true_iff, !nonempty_true. }
  split; [ | split; [ | split ] ].
  - apply List.Forall_forall. intros a Ha. apply List.filter_In in Ha as [_ Ha].
    by apply Hkeep.
  - pose proof (slots_distinct dirname env) as Hnd. fold slots in Hnd.
    clearbody slots. induction slots as [ | a l IH]; simpl; [ constructor | ].
    simpl in Hnd. apply NoDup_cons in Hnd as [Hnotin Hnd].
    destruct (keep a); simpl; [ | by apply IH ].
    apply NoDup_cons. split; [ | by apply IH ].
    intros Hin. apply Hnotin. apply list_elem_of_fmap in Hin as (b & Hb & Hin).
    apply list_elem_of_fmap. exists b. split; [ done | ].
    apply list_elem_of_In. apply list_elem_of_In in Hin.
    by apply List.filter_In in Hin as [Hin _].
  - etransitivity; [ apply List.filter_length_le | done ].
  - intros n Hn. rewrite List.filter_In, Hkeep. simpl email. simpl password.
    split; [ tauto | ]. intros H. split; [ | done ].
    unfold slots. simpl in *. destruct Hn as [<- | [<- | [<- | []]]]; tauto.
Qed.

(** ** The keywords endpoint (server.js, lines 132-194) *)

Lemma scrapeKeywords_ok keyword options scs w r w' :
  scrapeKeywords keyword options scs w = (Ok r, w') ->
  exists allKeywords,
    keywords r = List.filter (in_volume_range (default 0 (opt_minVolume options))
                                (default Infinity (opt_maxVolume options))) allKeywords
    /\ filteredCount r = length (keywords r)
    /\ totalKeywordsFound r = length allKeywords.
Proof.
  intros H.
  destruct (Js.member PLATFORM_URLS (default "google" (opt_platform options)))
    as [url | ] eqn:Eurl;
    [ | unfold scrapeKeywords in H; rewrite Eurl in H; discriminate ].
  assert (Hvalid : valid_platform options) by (unfold valid_platform; by rewrite Eurl).
  destruct (heap w !! config_keywordToolAccounts) as [[ | c cs] | ] eqn:Hcfg.
  - rewrite scrapeKeywords_no_accounts in H by done. discriminate.
  - rewrite (scrapeKeywords_run _ _ _ _ (c :: cs)) in H by done.
    destruct (scrape_loop_view keyword options scs
                (Js.sort (cookie_priority (fs w)) (c :: cs)) 0%nat []
                (loop_start w (c :: cs))) as (f & evs & k & _ & _ & _ & Hlast).
    rewrite H in Hlast. simpl in Hlast. destruct Hlast as (b & _ & _ & Hb).
    specialize (Hb w).
    destruct (tryWithAccount b keyword options (scs k) w) as [r0 w1] eqn:Et.
    simpl in Hb. subst r0.
    apply tryWithAccount_ok in Et as (wb & Eb & _).
    apply attempt_body_ok in Eb as (allKeywords & w2 & _ & Hk & Hf & Ht & _).
    by exists allKeywords.
  - unfold scrapeKeywords, bind, array_spread in H. rewrite Eurl, Hcfg in H.
    discriminate.
Qed.

Lemma failure_status_values message : In (failure_status message) [401; 500; 503].
Proof.
  unfold failure_status.
  destruct (Js.includes message "OTP" || Js.includes message "verifikasi");
    destruct (Js.includes message "Login gagal"); simpl; tauto.
Qed.

Lemma length_zero_empty s : (String.length s =? 0)%nat = true <-> s = "".
Proof. destruct s; simpl; split; done. Qed.

(** X16.  A request whose platform is not one of the five platform names
    (the names every object inherits are among those refused here), or whose keyword is
    missing or blank, is answered with status 400 and the scraper is not
    run: the world is the same. *)
Theorem bad_requests_never_reach_the_scraper platform query scs w :
  ~ In platform PLATFORM_KEYS
  \/ query_keyword query = None
  \/ (exists k, query_keyword query = Some k /\ Js.trim k = "") ->
  exists b, keywords_handler platform query scs w
            = (Ok {| statusCode := 400; body := b |}, w).
Proof.
  intros Hbad. unfold keywords_handler, try_catch. cbv zeta.
  destruct (existsb (String.eqb platform) PLATFORM_KEYS) eqn:Ep; cbn [negb]; cbv beta iota;
    [ | by eexists ].
  apply existsb_eqb_In in Ep. destruct Hbad as [Hno | [-> | (k & -> & Hk)]].
  - done.
  - by eexists.
  - rewrite Hk. simpl. by eexists.
Qed.


(** X18.  A response with status 200 answers a request with one of the
    five platform names and a keyword that is not blank; it echoes the
    trimmed keyword, and every keyword it lists has a volume that is not
    negative and lies within the parsed bounds; the count it reports is the
    number of keywords listed, at most the number found. *)
Theorem served_keywords_respect_the_bounds platform query scs w resp :
  (keywords_handler platform query scs w).1 = Ok resp ->
  statusCode resp = 200 ->
  exists k result,
    query_keyword query = Some k
    /\ Js.trim k <> ""
    /\ In platform PLATFORM_KEYS
    /\ body resp = BodySuccess (Js.trim k) platform
                     (default "suggestions" (query_tab query)) result
    /\ Forall (fun kw =>
                 0 <= searchVolume kw
                 /\ within (parse_min_volume (default "0" (query_minVolume query)))
                      (parse_max_volume (query_maxVolume query)) (searchVolume kw))
         (keywords result)
    /\ filteredCount result = length (keywords result)
    /\ (filteredCount result <= totalKeywordsFound result)%nat.
Proof.
  unfold keywords_handler, try_catch, bind, ret. cbv zeta.
  destruct (existsb (String.eqb platform) PLATFORM_KEYS) eqn:Ep; cbn [negb]; cbv beta iota;
    [ | by intros [= <-] ].
  apply existsb_eqb_In in Ep.
  destruct (query_keyword query) as [k | ]; [ | by intros [= <-] ].
  destruct (String.length (Js.trim k) =? 0)%nat eqn:Ek; [ by intros [= <-] | ].
  assert (Hk : Js.trim k <> "").
  { intros Hk. apply length_zero_empty in Hk. congruence. }
  match goal with
  | |- context [scrapeKeywords k ?o scs w] =>
      destruct (scrapeKeywords k o scs w) as [[r | e] w'] eqn:E
  end; simpl; intros [= <-]; simpl.
  - intros _. exists k, r.
    apply scrapeKeywords_ok in E as (allKeywords & Hkw & Hcount & Htotal).
    simpl in Hkw. repeat (split; [ done | ]). split; [ | split; [ done | ] ].
    + rewrite Hkw. apply List.Forall_forall. intros kw Hin.
      apply List.filter_In in Hin as [_ Hin]. apply in_volume_range_within in Hin.
      split; [ | done ]. destruct Hin as [Hlo _]. unfold parse_min_volume in Hlo. lia.
    + rewrite Hcount, Htotal, Hkw. apply List.filter_length_le.
  - intros H. pose proof (failure_status_values e) as Hv. rewrite H in Hv.
    simpl in Hv. intuition discriminate.
Qed.

End Scraper.

(** * The properties on the example runs *)

(** Sorting the configured array itself would reorder it: the heap tells
    the copy from the original. *)
Lemma sort_in_place_reorders :
  let configured := [Ex.alice; Ex.bob; Ex.carol] in
  let w := Ex.world configured in
  heap (array_sort config_keywordToolAccounts (cookie_priority (fs w)) w).2
    !! config_keywordToolAccounts = Some [Ex.bob; Ex.alice; Ex.carol]
  /\ heap (scrapeKeywords JsonRef.print JsonRef.parse "shoes" Ex.options Ex.all_fail w).2
       !! config_keywordToolAccounts = Some configured.
Proof. vm_compute. split; reflexivity. Qed.

Lemma cookies_deleted_when_attempt_throws_witness :
  let configured := [Ex.alice; Ex.bob; Ex.carol; Ex.dave] in
  let w := Ex.world configured in
  let sorted := [Ex.bob; Ex.alice; Ex.carol; Ex.dave] in
  let out := scrapeKeywords JsonRef.print JsonRef.parse "shoes" Ex.options Ex.third_succeeds w in
  exists evs k,
    history out.2 = (history w ++ evs)%list
    /\ orchestrator_view evs
       = (flat_map failed_view (take k sorted)
          ++ match out.1 with Ok r => [EvTry (account r)] | Throw _ => [] end)%list
    /\ (forall j b, (j < k)%nat -> sorted !! j = Some b ->
          exists e, forall w0,
            (tryWithAccount JsonRef.print JsonRef.parse b "shoes" Ex.options
               (Ex.third_succeeds j) w0).1 = Throw e)
    /\ match out.1 with
       | Ok r =>
           exists b, sorted !! k = Some b /\ account r = email b
             /\ forall w0,
                  (tryWithAccount JsonRef.print JsonRef.parse b "shoes" Ex.options
                     (Ex.third_succeeds k) w0).1 = Ok r
       | Throw _ => k = length sorted
       end
    /\ (forall acct sc w0,
          orchestrator_view
            (history (tryWithAccount JsonRef.print JsonRef.parse acct "shoes" Ex.options sc w0).2)
          = orchestrator_view (history w0))
    /\ (forall f w0, f ∉ unwritable (fs w0) ->
          files (fs (deleteCookies f w0).2) !! f = None).
Proof.
  apply (cookies_deleted_when_attempt_throws JsonRef.print JsonRef.parse "shoes" Ex.options
           Ex.third_succeeds (Ex.world [Ex.alice; Ex.bob; Ex.carol; Ex.dave])
           [Ex.alice; Ex.bob; Ex.carol; Ex.dave]).
  - eexists. reflexivity.
  - reflexivity.
Defined.

(** C1 as stated fails: bob's login is rejected (or challenged), the attempt
    goes on as guest and returns, and [scrapeKeywords] returns its result
    without a call of [deleteCookies]; bob's cookie file is still on disk
    with its old contents. *)
Lemma login_failure_keeps_cookie_file :
  let w := Ex.world [Ex.bob] in
  let rejected := scrapeKeywords JsonRef.print JsonRef.parse "shoes" Ex.options
                    Ex.guest_after_rejection w in
  let challenged := scrapeKeywords JsonRef.print JsonRef.parse "shoes" Ex.options
                      Ex.guest_after_challenge w in
  files (fs w) !! cookieFile Ex.bob = Some Ex.stale
  /\ (loginIfNeeded JsonRef.print Ex.rejected Ex.bob w).1
     = Throw "Login gagal untuk bob@example.com: Wrong password"
  /\ rejected.1 = Ok (Ex.result Ex.bob Ex.blurred_records [])
  /\ orchestrator_view (history rejected.2) = [EvTry "bob@example.com"]
  /\ files (fs rejected.2) !! cookieFile Ex.bob = Some Ex.stale
  /\ (loginIfNeeded JsonRef.print Ex.challenged Ex.bob w).1
     = Throw "OTP/verifikasi diperlukan untuk bob@example.com"
  /\ challenged.1 = Ok (Ex.result Ex.bob Ex.blurred_records [])
  /\ orchestrator_view (history challenged.2) = [EvTry "bob@example.com"]
  /\ files (fs challenged.2) !! cookieFile Ex.bob = Some Ex.stale.
Proof. vm_compute. repeat split; reflexivity. Qed.

Lemma cookies_saved_after_real_data_witness :
  let w := Ex.world [Ex.bob] in
  let out := tryWithAccount JsonRef.print JsonRef.parse Ex.bob "shoes" Ex.options
               Ex.session_real w in
  out = (Ok (Ex.result Ex.bob Ex.real_records Ex.kept_records), out.2)
  /\ exists allKeywords w1,
       let logged_in := loginIfNeeded JsonRef.print (sc_login Ex.session_real) Ex.bob w1 in
       (forall w0, (extractKeywords (sc_table Ex.session_real) w0).1 = Ok allKeywords)
       /\ save_calls (history w1) = save_calls (history w)
       /\ saved_by_login (sc_login Ex.session_real) Ex.bob (save_calls (history w)) logged_in
       /\ (Forall (fun kw => isDataAvailable kw = false) allKeywords ->
           save_calls (history out.2) = save_calls (history logged_in.2))
       /\ (Exists (fun kw => isDataAvailable kw = true) allKeywords ->
           exists cookies ua,
             sc_cookies Ex.session_real = Ok cookies /\ sc_user_agent Ex.session_real = Ok ua
             /\ save_calls (history out.2)
                = (save_calls (history logged_in.2)
                   ++ [EvSave (cookieFile Ex.bob) cookies ua])%list).
Proof.
  intros w out.
  assert (H : out = (Ok (Ex.result Ex.bob Ex.real_records Ex.kept_records), out.2))
    by (vm_compute; reflexivity).
  split; [ exact H | ].
  exact (cookies_saved_after_real_data JsonRef.print JsonRef.parse Ex.bob "shoes" Ex.options
           Ex.session_real w _ _ H).
Defined.

(** C2 as stated fails: alice logs in with her credentials, [loginIfNeeded]
    saves the new session, the table then shows blurred rows only, and the
    attempt returns: [saveCookies] was called in an attempt all of whose
    extracted rows have [isDataAvailable = false], and the file is written. *)
Lemma login_saves_before_blurred_extraction :
  let w := Ex.world [Ex.alice] in
  let out := tryWithAccount JsonRef.print JsonRef.parse Ex.alice "shoes" Ex.options
               Ex.fresh_login_blurred w in
  (extractKeywords (sc_table Ex.fresh_login_blurred) w).1 = Ok Ex.blurred_records
  /\ forallb (fun kw => negb (isDataAvailable kw)) Ex.blurred_records = true
  /\ out.1 = Ok (Ex.result Ex.alice Ex.blurred_records [])
  /\ files (fs w) !! cookieFile Ex.alice = None
  /\ save_calls (history out.2) = [EvSave (cookieFile Ex.alice) [Ex.sid "fresh"] "UA/1"]
  /\ files (fs out.2) !! cookieFile Ex.alice
     = Some (JsonRef.print (session_json [Ex.sid "fresh"] "UA/1")).
Proof. vm_compute. repeat split; reflexivity. Qed.

Lemma filter_reflected_in_result_witness :
  let w := Ex.world [Ex.bob] in
  let out := tryWithAccount JsonRef.print JsonRef.parse Ex.bob "shoes" Ex.options
               Ex.session_real w in
  let r := Ex.result Ex.bob Ex.real_records Ex.kept_records in
  out = (Ok r, out.2)
  /\ exists allKeywords,
       (forall w0, (extractKeywords (sc_table Ex.session_real) w0).1 = Ok allKeywords)
       /\ keywords r = List.filter (in_volume_range 100 (Num 5000)) allKeywords
       /\ filteredCount r = length (keywords r)
       /\ Forall (fun kw => within 100 (Num 5000) (searchVolume kw)) (keywords r)
       /\ (forall kw, In kw allKeywords -> within 100 (Num 5000) (searchVolume kw) ->
           In kw (keywords r))
       /\ (forall kw, In kw (keywords r) -> In kw allKeywords).
Proof.
  intros w out r.
  assert (H : out = (Ok r, out.2)) by (vm_compute; reflexivity).
  split; [ exact H | ].
  exact (filter_reflected_in_result JsonRef.print JsonRef.parse Ex.bob "shoes" Ex.options
           Ex.session_real w r _ H).
Defined.

Lemma blurred_volume_is_zero_witness :
  let kw := {| keyword := "shoe rack"; searchVolume := 0; searchVolumeFormatted := "-";
               trend := "+5%"; isDataAvailable := false |} in
  (extractKeywords (Ex.table Ex.real_rows) (Ex.world [])).1 = Ok Ex.real_records
  /\ In kw Ex.real_records
  /\ isDataAvailable kw = false
  /\ searchVolume kw = 0 /\ searchVolumeFormatted kw = "-".
Proof.
  intros kw.
  assert (Hx : (extractKeywords (Ex.table Ex.real_rows) (Ex.world [])).1 = Ok Ex.real_records)
    by (vm_compute; reflexivity).
  assert (Hin : In kw Ex.real_records) by (simpl; tauto).
  split; [ exact Hx | split; [ exact Hin | split; [ reflexivity | ] ] ].
  exact (proj2 (blurred_volume_is_zero (Ex.table Ex.real_rows) (Ex.world []) Ex.real_records kw
                  Hx Hin) eq_refl).
Defined.

Lemma session_reuse_skips_credentials_witness :
  let w := Ex.world [Ex.bob] in
  let probed := after w (fs w) [EvIsVisible sel_login_link; EvIsVisible sel_user_menu] in
  loginIfNeeded JsonRef.print Ex.already_in Ex.bob w = (Ok true, probed)
  /\ loginIfNeeded JsonRef.print Ex.no_link_no_menu Ex.bob w
     = submit_credentials JsonRef.print Ex.no_link_no_menu Ex.bob probed.
Proof.
  split.
  - apply (session_reuse_skips_credentials JsonRef.print Ex.already_in Ex.bob
             (Ex.world [Ex.bob])). reflexivity.
  - apply (session_reuse_skips_credentials JsonRef.print Ex.no_link_no_menu Ex.bob
             (Ex.world [Ex.bob])). reflexivity.
Defined.

Lemma login_outcome_priority_witness :
  let w := Ex.world [Ex.alice] in
  loginIfNeeded JsonRef.print Ex.challenged Ex.alice w
  = (Throw "OTP/verifikasi diperlukan untuk alice@example.com",
     submitted Ex.challenged Ex.alice (probed Ex.challenged w))
  /\ loginIfNeeded JsonRef.print Ex.rejected Ex.alice w
     = (Throw "Login gagal untuk alice@example.com: Wrong password",
        record (EvTextContent sel_alert) (submitted Ex.rejected Ex.alice (probed Ex.rejected w)))
  /\ loginIfNeeded JsonRef.print Ex.authenticated Ex.alice w
     = (Ok true,
        (saveCookies JsonRef.print (cookieFile Ex.alice) [Ex.sid "fresh"] "UA/1"
           (record (EvEvaluate "navigator.userAgent")
              (record EvCookies
                 (submitted Ex.authenticated Ex.alice (probed Ex.authenticated w))))).2).
Proof.
  intros w. split; [ | split ].
  - apply (login_outcome_priority JsonRef.print Ex.challenged Ex.alice w);
      first [ reflexivity | left; reflexivity | right; reflexivity ].
  - apply (login_outcome_priority JsonRef.print Ex.rejected Ex.alice w);
      first [ reflexivity | left; reflexivity | right; reflexivity ].
  - apply (login_outcome_priority JsonRef.print Ex.authenticated Ex.alice w);
      first [ reflexivity | left; reflexivity | right; reflexivity ].
Defined.

Lemma first_success_is_returned_witness :
  let configured := [Ex.alice; Ex.bob; Ex.carol; Ex.dave] in
  let w := Ex.world configured in
  let out := scrapeKeywords JsonRef.print JsonRef.parse "shoes" Ex.options Ex.third_succeeds w in
  exists evs,
    out.1 = Ok (Ex.result Ex.carol Ex.real_records Ex.kept_records)
    /\ history out.2 = (history w ++ evs)%list
    /\ attempted evs = map email ([Ex.bob; Ex.alice] ++ [Ex.carol]).
Proof.
  apply (first_success_is_returned JsonRef.print JsonRef.parse "shoes" Ex.options
           Ex.third_succeeds (Ex.world [Ex.alice; Ex.bob; Ex.carol; Ex.dave])
           [Ex.alice; Ex.bob; Ex.carol; Ex.dave] [Ex.bob; Ex.alice] Ex.carol [Ex.dave]
           Ex.reasons).
  - eexists. reflexivity.
  - reflexivity.
  - vm_compute. reflexivity.
  - intros [ | [ | j]] b Hb; simpl in Hb; [ | | discriminate ];
      injection Hb as <-;
      apply (attempt_result_everywhere _ _ _ _ _ _ (Ex.world []));
      vm_compute; reflexivity.
  - apply (attempt_result_everywhere _ _ _ _ _ _ (Ex.world [])).
    vm_compute. reflexivity.
Defined.

Lemma all_failures_are_aggregated_witness :
  let configured := [Ex.alice; Ex.bob; Ex.carol] in
  let w := Ex.world configured in
  let sorted := [Ex.bob; Ex.alice; Ex.carol] in
  let errors := imap (error_entry Ex.reasons 0) sorted in
  msg_all_failed errors
  = "Semua akun gagal login. bob@example.com: page crashed | alice@example.com: Target closed | carol@example.com: Target closed"
  /\ (scrapeKeywords JsonRef.print JsonRef.parse "shoes" Ex.options Ex.all_fail w).1
     = Throw (msg_all_failed errors)
  /\ length errors = length configured
  /\ map failed_account errors = map email sorted
  /\ map failed_account errors ≡ₚ map email configured
  /\ (forall j b, sorted !! j = Some b ->
        errors !! j = Some {| failed_account := email b; failed_error := Ex.reasons j |}).
Proof.
  split; [ vm_compute; reflexivity | ].
  apply (all_failures_are_aggregated JsonRef.print JsonRef.parse "shoes" Ex.options
           Ex.all_fail (Ex.world [Ex.alice; Ex.bob; Ex.carol]) [Ex.alice; Ex.bob; Ex.carol]
           Ex.reasons).
  - eexists. reflexivity.
  - reflexivity.
  - discriminate.
  - intros [ | [ | [ | j]]] b Hb; vm_compute in Hb; [ | | | discriminate ];
      injection Hb as <-;
      apply (attempt_result_everywhere _ _ _ _ _ _ (Ex.world []));
      vm_compute; reflexivity.
Defined.

Lemma session_store_round_trip_witness :
  let f := cookieFile Ex.alice in
  let w := Ex.world [Ex.alice] in
  let saved := (saveCookies JsonRef.print f [Ex.sid "fresh"] "UA/1" w).2 in
  (loadCookies JsonRef.parse f saved).1 = Ok (session_json [Ex.sid "fresh"] "UA/1")
  /\ (loadCookies JsonRef.parse f (deleteCookies f saved).2).1 = Ok JNull.
Proof.
  intros f w saved.
  destruct (session_store_round_trip JsonRef.print JsonRef.parse f [Ex.sid "fresh"] "UA/1" w)
    as (Hload & _ & _ & Hdeleted & _).
  - apply not_elem_of_empty.
  - apply not_elem_of_empty.
  - vm_compute. reflexivity.
  - split; [ exact Hload | exact Hdeleted ].
Defined.

(** * The further properties on the example runs *)

Lemma last_save_wins_witness :
  let f := cookieFile Ex.bob in
  let w := Ex.world [Ex.bob] in
  (loadCookies JsonRef.parse f
     (saveCookies JsonRef.print f [Ex.sid "second"] "UA/2"
        (saveCookies JsonRef.print f [Ex.sid "first"] "UA/1" w).2).2).1
  = Ok (session_json [Ex.sid "second"] "UA/2").
Proof.
  intros f w. apply (last_save_wins JsonRef.print JsonRef.parse).
  - apply not_elem_of_empty.
  - apply not_elem_of_empty.
  - vm_compute. reflexivity.
Defined.

Lemma store_slots_are_independent_witness :
  let w := Ex.world [Ex.alice; Ex.bob] in
  let f := cookieFile Ex.alice in
  let g := cookieFile Ex.bob in
  (loadCookies JsonRef.parse g (saveCookies JsonRef.print f [Ex.sid "fresh"] "UA/1" w).2).1
  = (loadCookies JsonRef.parse g w).1
  /\ (loadCookies JsonRef.parse g (deleteCookies f w).2).1 = (loadCookies JsonRef.parse g w).1.
Proof.
  intros w f g. apply (store_slots_are_independent JsonRef.print JsonRef.parse).
  discriminate.
Defined.

Lemma extracted_records_are_well_formed_witness :
  let p := Ex.table Ex.real_rows in
  (extractKeywords p (Ex.world [])).1 = Ok Ex.real_records
  /\ Forall (fun kw => nonempty (keyword kw) = true
                       /\ Js.trim (keyword kw) = keyword kw
                       /\ nonempty (trend kw) = true) Ex.real_records
  /\ (forall rows, tb_rows p = Ok rows -> (length Ex.real_records <= length rows)%nat).
Proof.
  intros p.
  assert (H : (extractKeywords p (Ex.world [])).1 = Ok Ex.real_records)
    by (vm_compute; reflexivity).
  split; [ exact H | ].
  exact (extracted_records_are_well_formed p (Ex.world []) Ex.real_records H).
Defined.

Lemma negative_volume_needs_minus_sign_witness :
  let p := Ex.table Ex.negative_rows in
  let kw := Ex.negative_record in
  (extractKeywords p (Ex.world [])).1 = Ok [kw]
  /\ searchVolume kw < 0
  /\ exists rows row volCell digits,
       tb_rows p = Ok rows /\ In row rows /\ row_record row = Some kw
       /\ cells row !! 2%nat = Some volCell
       /\ is_blurred volCell = false
       /\ clean_volume (Js.trim (textContent volCell)) = String "-" digits.
Proof.
  intros p kw.
  assert (H : (extractKeywords p (Ex.world [])).1 = Ok [kw]) by (vm_compute; reflexivity).
  split; [ exact H | ]. split; [ reflexivity | ].
  apply (negative_volume_needs_minus_sign p (Ex.world []) [kw] kw H).
  - by left.
  - reflexivity.
Defined.



Lemma attempts_follow_cookie_priority_witness :
  let configured := [Ex.alice; Ex.bob; Ex.carol; Ex.dave] in
  let w := Ex.world configured in
  let order := [Ex.bob; Ex.alice; Ex.carol; Ex.dave] in
  let out := scrapeKeywords JsonRef.print JsonRef.parse "shoes" Ex.options Ex.third_succeeds w in
  exists evs n,
    history out.2 = (history w ++ evs)%list
    /\ attempted evs = map email (take n order)
    /\ match out.1 with
       | Ok r => last (attempted evs) = Some (account r)
       | Throw _ => True
       end.
Proof.
  apply (attempts_follow_cookie_priority JsonRef.print JsonRef.parse "shoes" Ex.options
           Ex.third_succeeds (Ex.world [Ex.alice; Ex.bob; Ex.carol; Ex.dave])
           [Ex.alice; Ex.bob; Ex.carol; Ex.dave]).
  reflexivity.
Defined.

Lemma bad_requests_never_reach_the_scraper_witness :
  let w := Ex.world [Ex.bob] in
  exists b, keywords_handler JsonRef.print JsonRef.parse "toString" Ex.query
              (fun _ => Ex.session_real) w
            = (Ok {| statusCode := 400; body := b |}, w).
Proof.
  apply (bad_requests_never_reach_the_scraper JsonRef.print JsonRef.parse "toString" Ex.query
           (fun _ => Ex.session_real) (Ex.world [Ex.bob])).
  left. intros [H | [H | [H | [H | [H | []]]]]]; discriminate.
Defined.

Lemma served_keywords_respect_the_bounds_witness :
  let w := Ex.world [Ex.bob] in
  let result := Ex.result Ex.bob Ex.real_records Ex.kept_records in
  let resp := {| statusCode := 200;
                 body := BodySuccess "shoes" "google" "suggestions" result |} in
  (keywords_handler JsonRef.print JsonRef.parse "google" Ex.query
     (fun _ => Ex.session_real) w).1 = Ok resp
  /\ exists k result,
       query_keyword Ex.query = Some k
       /\ Js.trim k <> ""
       /\ In "google" PLATFORM_KEYS
       /\ body resp = BodySuccess (Js.trim k) "google"
                        (default "suggestions" (query_tab Ex.query)) result
       /\ Forall (fun kw =>
                    0 <= searchVolume kw
                    /\ within (parse_min_volume (default "0" (query_minVolume Ex.query)))
                         (parse_max_volume (query_maxVolume Ex.query)) (searchVolume kw))
            (keywords result)
       /\ filteredCount result = length (keywords result)
       /\ (filteredCount result <= totalKeywordsFound result)%nat.
Proof.
  intros w result resp.
  assert (H : (keywords_handler JsonRef.print JsonRef.parse "google" Ex.query
                 (fun _ => Ex.session_real) w).1 = Ok resp) by (vm_compute; reflexivity).
  split; [ exact H | ].
  exact (served_keywords_respect_the_bounds JsonRef.print JsonRef.parse "google" Ex.query
           (fun _ => Ex.session_real) w resp H eq_refl).
Defined.
